(** * StyleAI: the capture / analysis / selection / generation flow

    A shallow embedding of [src/types.ts], [src/services/geminiService.ts]
    and the flow controller of [src/App.tsx], with the properties of the
    design description stated and settled against it. *)

From Stdlib Require Import Ascii String.
From stdpp Require Import base tactics option list strings sorting.

Set Warnings "-register-all".

(** ** [src/types.ts] *)

Record HairstyleSuggestion := {
  name : string;
  description : string;
  reasoning : string;
}.

Record AnalysisResult := {
  faceShape : string;
  suggestions : list HairstyleSuggestion;
}.

Record GeneratedImage := {
  hairstyleName : string;
  imageUrl : string;
}.

Inductive AppState :=
  | IDLE | CAMERA | PREVIEW | ANALYZING | SELECTION | GENERATING | RESULTS | ERROR.

Global Instance AppState_eq_dec : EqDecision AppState.
Proof. solve_decision. Defined.

(** ** Selection ([toggleSelection], [src/App.tsx] lines 123-132)

    [selectedIndices] is a [number[]] used as a set; the indices handed to
    [toggleSelection] are the positions produced by
    [analysisResult.suggestions.map], hence naturals. *)

Module Selection.

(** The updater passed to [setSelectedIndices]. *)
Definition toggleSelection (index : nat) (prev : list nat) : list nat :=
  if decide (index ∈ prev) then filter (λ i, i ≠ index) prev
  else if decide (2 ≤ length prev) then prev
  else prev ++ [index].

(** A run of clicks, oldest first. *)
Definition toggles (clicks : list nat) (sel : list nat) : list nat :=
  foldl (λ s j, toggleSelection j s) sel clicks.

End Selection.

(** ** The JavaScript runtime the sources rely on

    A JavaScript string is carried by the [string] of its UTF-8
    encoding, as string literals are: the empty string by the empty
    one, concatenation by concatenation, equality by equality, and a
    character outside ASCII by its two, three or four bytes. The class
    [\s] is matched on these bytes; [String.prototype.toLowerCase],
    which follows the Unicode case tables, is a built-in that the flow
    takes as a parameter. *)

Module Js.

(** What a [throw] carries; [message] is the only property the
    sources read. *)
Inductive JsError :=
  | Error (msg : string)        (* new Error(msg) *)
  | SyntaxError (msg : string)  (* raised by JSON.parse *)
  | TypeError (msg : string)    (* property access on undefined *)
  | ApiError (msg : string).    (* raised by the remote client *)

Definition message (e : JsError) : string :=
  match e with
  | Error m | SyntaxError m | TypeError m | ApiError m => m
  end.

(** A settled computation: a value, or the thrown (rejected) error. *)
Inductive Outcome (A : Type) :=
  | Ok (a : A)
  | Throw (e : JsError).
Global Arguments Ok {A} a.
Global Arguments Throw {A} e.

Definition isOk {A} (o : Outcome A) : bool :=
  match o with Ok _ => true | Throw _ => false end.

(** Truthiness of a (possibly undefined) string: [!s] is true for
    [undefined] and for the empty string. *)
Definition truthy (s : option string) : bool :=
  match s with
  | None => false
  | Some EmptyString => false
  | Some _ => true
  end.

(** [a || b] on strings. *)
Definition orElse (a b : string) : string :=
  if truthy (Some a) then a else b.

(** *** Strings *)

Definition bytes (l : list nat) : string :=
  string_of_list_ascii (ascii_of_nat <$> l).

(** The class [\s] of a regular expression: the white space and line
    terminator characters of ECMAScript, each by its UTF-8 bytes.
    U+0009 to U+000D and U+0020 are one byte; U+00A0 is two; U+1680,
    U+2000 to U+200A, U+2028, U+2029, U+202F, U+205F, U+3000 and U+FEFF
    are three. *)
Definition whitespaceChars : list string :=
  bytes <$> [ [9]; [10]; [11]; [12]; [13]; [32]; [194; 160]; [225; 154; 128];
              [226; 128; 128]; [226; 128; 129]; [226; 128; 130]; [226; 128; 131];
              [226; 128; 132]; [226; 128; 133]; [226; 128; 134]; [226; 128; 135];
              [226; 128; 136]; [226; 128; 137]; [226; 128; 138];
              [226; 128; 168]; [226; 128; 169]; [226; 128; 175];
              [226; 129; 159]; [227; 128; 128]; [239; 187; 191] ].

(** [s] starts with [p]. *)
Fixpoint startsWith (p s : string) : bool :=
  match p, s with
  | EmptyString, _ => true
  | String a p', String b s' => Ascii.eqb a b && startsWith p' s'
  | String _ _, EmptyString => false
  end.

(** The number of bytes of the [\s] character [s] starts with, 0 when
    it starts with none. No such character starts with a continuation
    byte, so the test may be made at every byte. *)
Definition whitespaceLength (s : string) : nat :=
  match find (λ c, startsWith c s) whitespaceChars with
  | Some c => String.length c
  | None => 0
  end.

Definition startsWithWhitespace (s : string) : bool :=
  negb (whitespaceLength s =? 0).


(** The strings of a list, one after the other. *)
Definition joined (l : list string) : string :=
  foldr String.append EmptyString l.

(** [s.replace(/\s+/g, by)]: every maximal run of [\s] characters
    becomes one copy of [by]. [inRun] tells that the previous character
    was one, so that the run has been replaced already; [skip] is the
    number of bytes still to pass of a character that was. *)
Fixpoint replaceRunsFrom (by_ : string) (inRun : bool) (skip : nat) (s : string) : string :=
  match s with
  | EmptyString => EmptyString
  | String c r =>
    match skip with
    | S k => replaceRunsFrom by_ inRun k r
    | 0 =>
      match whitespaceLength (String c r) with
      | 0 => String c (replaceRunsFrom by_ false 0 r)
      | S k =>
        if inRun then replaceRunsFrom by_ true k r
        else String.append by_ (replaceRunsFrom by_ true k r)
      end
    end
  end.

Definition replaceRuns (by_ : string) (inRun : bool) (s : string) : string :=
  replaceRunsFrom by_ inRun 0 s.

Definition replaceWhitespaceRuns (by_ s : string) : string :=
  replaceRuns by_ false s.

(** [String.prototype.toLowerCase] on a string of ASCII characters: A
    to Z are moved by 32, the other ASCII characters stay. The built-in
    follows the Unicode case tables on the other characters, which this
    function leaves as they are: it serves to run the flow on sample
    names made of ASCII characters. *)
Fixpoint lowerCaseAscii (s : string) : string :=
  match s with
  | EmptyString => EmptyString
  | String c r =>
    let a := nat_of_ascii c in
    String (if (65 <=? a) && (a <=? 90) then ascii_of_nat (a + 32) else c)
           (lowerCaseAscii r)
  end.

(** [s.replace(/^p/, empty)] for a literal [p]: drop [p] when [s] starts
    with it. *)
Fixpoint stripPrefix (p s : string) : option string :=
  match p, s with
  | EmptyString, _ => Some s
  | String a p', String b s' => if decide (a = b) then stripPrefix p' s' else None
  | String _ _, EmptyString => None
  end.

End Js.

(** ** JSON values and [JSON.parse]

    [JSON.parse] is a built-in; the service functions below take it as a
    parameter. [JSON_parse] is a model of it for ASCII texts (numbers are
    kept as their lexemes, [\u] escapes are not covered), used to run the
    service on concrete responses. *)

Module Json.
Import Js.

Inductive json :=
  | JNull
  | JBool (b : bool)
  | JNumber (lexeme : string)
  | JString (s : string)
  | JArray (items : list json)
  | JObject (members : list (string * json)).

(** [v[k]] for an object [v]: the last member named [k] wins, as in
    [JSON.parse]; anything else has no such property. *)
Definition prop (k : string) (v : json) : option json :=
  match v with
  | JObject ms => snd <$> last (filter (λ m, fst m = k) ms)
  | _ => None
  end.

Definition isJsonSpace (c : ascii) : bool :=
  let n := nat_of_ascii c in
  (n =? 32) || (n =? 9) || (n =? 10) || (n =? 13).

Definition isDigit (c : ascii) : bool :=
  let n := nat_of_ascii c in (48 <=? n) && (n <=? 57).

Fixpoint skipSpace (s : list ascii) : list ascii :=
  match s with
  | c :: r => if isJsonSpace c then skipSpace r else s
  | [] => []
  end.

Fixpoint span (p : ascii → bool) (s : list ascii) : list ascii * list ascii :=
  match s with
  | c :: r => if p c then let '(a, b) := span p r in (c :: a, b) else ([], s)
  | [] => ([], [])
  end.

Definition digits1 (s : list ascii) : option (list ascii * list ascii) :=
  let '(d, r) := span isDigit s in
  match d with [] => None | _ => Some (d, r) end.

(** number = [-] int [frac] [exp] *)
Definition lexNumber (s : list ascii) : option (list ascii * list ascii) :=
  let '(sign, s1) :=
    match s with
    | "-"%char :: r => (["-"%char], r)
    | _ => ([], s)
    end in
  '(int, s2) ← digits1 s1;
  match int with
  | "0"%char :: _ :: _ => None
  | _ =>
    '(frac, s3) ←
      match s2 with
      | "."%char :: r => '(d, r') ← digits1 r; Some ("."%char :: d, r')
      | _ => Some ([], s2)
      end;
    '(exp, s4) ←
      match s3 with
      | e :: r =>
          if decide (e = "e"%char ∨ e = "E"%char) then
            let '(sg, r1) :=
              match r with
              | c :: r0 =>
                  if decide (c = "+"%char ∨ c = "-"%char) then ([c], r0) else ([], r)
              | [] => ([], r)
              end in
            '(d, r2) ← digits1 r1; Some (e :: sg ++ d, r2)
          else Some ([], s3)
      | [] => Some ([], s3)
      end;
    Some (sign ++ int ++ frac ++ exp, s4)
  end.

Definition unescape (c : ascii) : option ascii :=
  if decide (c = "034"%char) then Some "034"%char
  else if decide (c = "\"%char) then Some "\"%char
  else if decide (c = "/"%char) then Some "/"%char
  else if decide (c = "b"%char) then Some "008"%char
  else if decide (c = "f"%char) then Some "012"%char
  else if decide (c = "n"%char) then Some "010"%char
  else if decide (c = "r"%char) then Some "013"%char
  else if decide (c = "t"%char) then Some "009"%char
  else None.

(** The characters of a string literal, after its opening quote. *)
Fixpoint lexString (s : list ascii) : option (list ascii * list ascii) :=
  match s with
  | [] => None
  | c :: r =>
      if decide (c = "034"%char) then Some ([], r)
      else if decide (c = "\"%char) then
        match r with
        | e :: r' =>
            c' ← unescape e;
            '(cs, rest) ← lexString r';
            Some (c' :: cs, rest)
        | [] => None
        end
      else if nat_of_ascii c <? 32 then None
      else '(cs, rest) ← lexString r; Some (c :: cs, rest)
  end.

(** The recursive descent proper. [fuel] bounds the depth of the
    calls; [JSON_parse] starts it at twice the length of the text. *)
Fixpoint parseValue (fuel : nat) (s : list ascii) : option (json * list ascii) :=
  match fuel with
  | 0 => None
  | S fuel =>
    match skipSpace s with
    | "n"%char :: "u"%char :: "l"%char :: "l"%char :: r => Some (JNull, r)
    | "t"%char :: "r"%char :: "u"%char :: "e"%char :: r => Some (JBool true, r)
    | "f"%char :: "a"%char :: "l"%char :: "s"%char :: "e"%char :: r =>
        Some (JBool false, r)
    | "034"%char :: r =>
        '(cs, r') ← lexString r;
        Some (JString (string_of_list_ascii cs), r')
    | "["%char :: r =>
        match skipSpace r with
        | "]"%char :: r' => Some (JArray [], r')
        | _ => '(vs, r') ← parseElements fuel r; Some (JArray vs, r')
        end
    | "{"%char :: r =>
        match skipSpace r with
        | "}"%char :: r' => Some (JObject [], r')
        | _ => '(ms, r') ← parseMembers fuel r; Some (JObject ms, r')
        end
    | s' =>
        '(lx, r) ← lexNumber s';
        Some (JNumber (string_of_list_ascii lx), r)
    end
  end
with parseElements (fuel : nat) (s : list ascii) : option (list json * list ascii) :=
  match fuel with
  | 0 => None
  | S fuel =>
    '(v, r) ← parseValue fuel s;
    match skipSpace r with
    | ","%char :: r' => '(vs, r'') ← parseElements fuel r'; Some (v :: vs, r'')
    | "]"%char :: r' => Some ([v], r')
    | _ => None
    end
  end
with parseMembers (fuel : nat) (s : list ascii) : option (list (string * json) * list ascii) :=
  match fuel with
  | 0 => None
  | S fuel =>
    match skipSpace s with
    | "034"%char :: r =>
        '(k, r1) ← lexString r;
        match skipSpace r1 with
        | ":"%char :: r2 =>
            '(v, r3) ← parseValue fuel r2;
            let m := (string_of_list_ascii k, v) in
            match skipSpace r3 with
            | ","%char :: r4 => '(ms, r5) ← parseMembers fuel r4; Some (m :: ms, r5)
            | "}"%char :: r4 => Some ([m], r4)
            | _ => None
            end
        | _ => None
        end
    | _ => None
    end
  end.

(** [JSON.parse(text)]: one value, surrounded by optional whitespace;
    anything else raises a [SyntaxError] (whose message is the
    engine's). *)
Definition JSON_parse (text : string) : Outcome json :=
  let s := list_ascii_of_string text in
  match parseValue (2 * length s + 2) s with
  | Some (v, r) =>
      match skipSpace r with
      | [] => Ok v
      | _ => Throw (SyntaxError "Unexpected non-whitespace character after JSON")
      end
  | None => Throw (SyntaxError "Unexpected token in JSON")
  end.

Definition dquote : string := String "034"%char EmptyString.
Definition quoted (s : string) : string := String.append dquote (String.append s dquote).

End Json.

(** ** [src/services/geminiService.ts] *)

Module GeminiService.
Import Js Json.
Local Open Scope string_scope.

Definition ANALYSIS_MODEL : string := "gemini-2.5-flash".
Definition GENERATION_MODEL : string := "gemini-2.5-flash-image".

(** *** The interface of the remote client ([@google/genai]) *)

Inductive Part :=
  | InlineData (mimeType data : string)
  | TextPart (text : string).

(** The [config] of a request: the one of [analyzeFace] (JSON mime
    type, [analysisSchema], temperature) or the empty one. *)
Inductive Config := AnalysisConfig | EmptyConfig.

Record Request := {
  apiKey : string;
  model : string;
  parts : list Part;
  config : Config;
}.

Record Blob := { data : option string }.
Record ResponsePart := { inlineData : option Blob }.
Record Content := { contentParts : option (list ResponsePart) }.
Record Candidate := { content : option Content }.
Record Response := {
  text : option string;
  candidates : option (list Candidate);
}.

(** [ai.models.generateContent]: the network call. *)
Definition Remote := Request → Outcome Response.

(** Where the credential may come from: [process.env] and
    [import.meta.env], each absent ([None]) or an object whose key is
    unset ([Some None]) or set. *)
Record Environment := {
  process_env_API_KEY : option (option string);
  import_meta_env_VITE_API_KEY : option (option string);
}.

(** A computation of the service: its outcome and the requests it sent
    over the network, oldest first. *)
Definition Net (A : Type) : Type := Outcome A * list Request.

Definition apiKeyMissing : string :=
  "API Key is missing. Please check your .env file or environment configuration.".

(** [getAiClient] (lines 33-60); the client is its key. *)
Definition getAiClient (env : Environment) : Outcome string :=
  let apiKey : option string :=
    if truthy (mjoin (process_env_API_KEY env)) then mjoin (process_env_API_KEY env)
    else if truthy (mjoin (import_meta_env_VITE_API_KEY env))
    then mjoin (import_meta_env_VITE_API_KEY env)
    else None in
  let apiKey : option string :=
    if negb (truthy apiKey) && bool_decide (is_Some (process_env_API_KEY env))
    then mjoin (process_env_API_KEY env)
    else apiKey in
  match apiKey with
  | Some k => if truthy (Some k) then Ok k else Throw (Error apiKeyMissing)
  | None => Throw (Error apiKeyMissing)
  end.

(** [img.replace(/^data:image\/(png|jpeg|jpg);base64,/, empty)] *)
Definition stripDataUrl (img : string) : string :=
  match stripPrefix "data:image/png;base64," img with
  | Some r => r
  | None =>
    match stripPrefix "data:image/jpeg;base64," img with
    | Some r => r
    | None =>
      match stripPrefix "data:image/jpg;base64," img with
      | Some r => r
      | None => img
      end
    end
  end.

Definition analysisPrompt : string :=
  "Analyze the face in these images. You are provided with 3 angles: 1. Front View, 2. Left Profile (or partial turn), 3. Right Profile (or partial turn). Use all angles to accurately identify the face shape. Suggest exactly 5 distinct, trendy hairstyles that would perfectly suit this person's face shape and features. Focus on realistic, achievable styles. Provide variety (short, medium, long if applicable).".

Definition generationPrompt (hairstyleName hairstyleDescription : string) : string :=
  "
      Transform this image: The person in the photo is now wearing a " ++ hairstyleName ++ ".
      " ++ hairstyleDescription ++ ".
      CRITICAL: Keep the person's facial features, expression, skin tone, and head pose EXACTLY the same as the original image. 
      Only change the hair. High quality, photorealistic portrait.
    ".

Section Calls.
(** The built-in [JSON.parse], the credential source, the remote
    endpoint. *)
Variable parse : string → Outcome json.
Variable env : Environment.
Variable remote : Remote.

(** [analyzeFace] (lines 65-102). The value is what [JSON.parse]
    gave: [as AnalysisResult] is a compile-time assertion only. *)
Definition analyzeFace (base64Images : list string) : Net json :=
  match getAiClient env with
  | Throw e => (Throw e, [])
  | Ok ai =>
    let imageParts := (λ img, InlineData "image/jpeg" (stripDataUrl img)) <$> base64Images in
    let request := {|
      apiKey := ai;
      model := ANALYSIS_MODEL;
      parts := imageParts ++ [TextPart analysisPrompt];
      config := AnalysisConfig |} in
    match remote request with
    | Throw e => (Throw e, [request])
    | Ok response =>
      if negb (truthy (text response))
      then (Throw (Error "No analysis generated."), [request])
      else (parse (default EmptyString (text response)), [request])
    end
  end.

(** The loop over [parts] looking for the first inline image. *)
Fixpoint firstInlineImage (ps : list ResponsePart) : option string :=
  match ps with
  | [] => None
  | p :: ps' =>
    match inlineData p with
    | Some b =>
        if truthy (data b)
        then Some ("data:image/png;base64," ++ default EmptyString (data b))
        else firstInlineImage ps'
    | None => firstInlineImage ps'
    end
  end.

(** [response.candidates?.[0]?.content?.parts] *)
Definition firstCandidateParts (response : Response) : option (list ResponsePart) :=
  cs ← candidates response; c ← head cs; ct ← content c; contentParts ct.

(** [generateHairstyleImage] (lines 107-158). [base64Image] is
    [capturedImages[0]] of the caller, [None] when that is
    [undefined]: [replace] on it raises a [TypeError]. *)
Definition generateHairstyleImage (base64Image : option string)
    (hairstyleName hairstyleDescription : string) : Net string :=
  match getAiClient env with
  | Throw e => (Throw e, [])
  | Ok ai =>
    match base64Image with
    | None => (Throw (TypeError "Cannot read properties of undefined (reading 'replace')"), [])
    | Some img =>
      let cleanBase64 := stripDataUrl img in
      let prompt := generationPrompt hairstyleName hairstyleDescription in
      let request := {|
        apiKey := ai;
        model := GENERATION_MODEL;
        parts := [InlineData "image/jpeg" cleanBase64; TextPart prompt];
        config := EmptyConfig |} in
      match remote request with
      | Throw e => (Throw e, [request])
      | Ok response =>
        match firstCandidateParts response with
        | None => (Throw (Error "No content in response"), [request])
        | Some ps =>
          match firstInlineImage ps with
          | Some url => (Ok url, [request])
          | None => (Throw (Error "No image generated in response."), [request])
          end
        end
      end
    end
  end.
End Calls.

End GeminiService.

(** ** The flow controller ([src/App.tsx]) *)

Module App.
Import Js.

(** *** The component's cells *)

(** The [useState] cells (lines 9-18). *)
Record State := mkState {
  appState : AppState;
  capturedImages : list string;
  captureStep : nat;
  analysisResult : option AnalysisResult;
  selectedIndices : list nat;
  generatedImages : list GeneratedImage;
  errorMsg : option string;
}.

Definition setAppState (v : AppState) (s : State) : State :=
  mkState v (capturedImages s) (captureStep s) (analysisResult s)
    (selectedIndices s) (generatedImages s) (errorMsg s).
Definition setCapturedImages (v : list string) (s : State) : State :=
  mkState (appState s) v (captureStep s) (analysisResult s)
    (selectedIndices s) (generatedImages s) (errorMsg s).
Definition setCaptureStep (v : nat) (s : State) : State :=
  mkState (appState s) (capturedImages s) v (analysisResult s)
    (selectedIndices s) (generatedImages s) (errorMsg s).
Definition setAnalysisResult (v : option AnalysisResult) (s : State) : State :=
  mkState (appState s) (capturedImages s) (captureStep s) v
    (selectedIndices s) (generatedImages s) (errorMsg s).
Definition setSelectedIndices (v : list nat) (s : State) : State :=
  mkState (appState s) (capturedImages s) (captureStep s) (analysisResult s)
    v (generatedImages s) (errorMsg s).
Definition setGeneratedImages (v : list GeneratedImage) (s : State) : State :=
  mkState (appState s) (capturedImages s) (captureStep s) (analysisResult s)
    (selectedIndices s) v (errorMsg s).
Definition setErrorMsg (v : option string) (s : State) : State :=
  mkState (appState s) (capturedImages s) (captureStep s) (analysisResult s)
    (selectedIndices s) (generatedImages s) v.

(** A camera stream handed out by [getUserMedia]. *)
Definition MediaStream := nat.

(** One [Promise.all] of [generateSelected] in flight: the suggestions
    its promises were made for, the value of each promise that has
    fulfilled, and whether the aggregate has settled already. *)
Record Batch := mkBatch {
  batchSuggestions : list HairstyleSuggestion;
  batchFront : option string;
  fulfilled : list (option GeneratedImage);
  batchSettled : bool;
}.

(** The component together with what it holds of the browser and of
    the network. *)
Record World := mkWorld {
  state : State;
  (** [streamRef.current] *)
  streamRef : option MediaStream;
  (** streams whose tracks have not been stopped *)
  liveStreams : list MediaStream;
  (** downloads triggered: (href, file name), oldest first *)
  downloads : list (string * string);
  (** [getUserMedia] calls awaiting the user's answer *)
  cameraRequests : nat;
  (** every [analyzeFace] call made (its argument), oldest first *)
  analyzeFaceCalls : list (list string);
  (** [analyzeFace] calls not settled yet *)
  analysesInFlight : nat;
  (** the [Promise.all]s of [generateSelected], oldest first *)
  batches : list Batch;
}.

Definition onState (f : State → State) (w : World) : World :=
  mkWorld (f (state w)) (streamRef w) (liveStreams w) (downloads w)
    (cameraRequests w) (analyzeFaceCalls w) (analysesInFlight w) (batches w).
Definition setCamera (r : option MediaStream) (l : list MediaStream) (w : World) : World :=
  mkWorld (state w) r l (downloads w)
    (cameraRequests w) (analyzeFaceCalls w) (analysesInFlight w) (batches w).
Definition setDownloads (d : list (string * string)) (w : World) : World :=
  mkWorld (state w) (streamRef w) (liveStreams w) d
    (cameraRequests w) (analyzeFaceCalls w) (analysesInFlight w) (batches w).
Definition setCameraRequests (n : nat) (w : World) : World :=
  mkWorld (state w) (streamRef w) (liveStreams w) (downloads w)
    n (analyzeFaceCalls w) (analysesInFlight w) (batches w).
Definition setAnalyses (calls : list (list string)) (n : nat) (w : World) : World :=
  mkWorld (state w) (streamRef w) (liveStreams w) (downloads w)
    (cameraRequests w) calls n (batches w).
Definition setBatches (bs : list Batch) (w : World) : World :=
  mkWorld (state w) (streamRef w) (liveStreams w) (downloads w)
    (cameraRequests w) (analyzeFaceCalls w) (analysesInFlight w) bs.

Definition initialState : State :=
  mkState IDLE [] 0 None [] [] None.
Definition initialWorld : World :=
  mkWorld initialState None [] [] 0 [] 0 [].

(** Reverse application, to write a handler's statements in their
    order. *)
Notation "w |> f" := (f w) (at level 45, left associativity, only parsing).

(** *** Camera (lines 27-84) *)

(** [startCamera] up to its [await]. *)
Definition startCamera (w : World) : World :=
  w |> onState (setAppState CAMERA)
    |> onState (setCaptureStep 0)
    |> onState (setCapturedImages [])
    |> setCameraRequests (S (cameraRequests w)).

(** [startCamera] after [getUserMedia] has resolved with [stream]. *)
Definition startCamera_granted (stream : MediaStream) (w : World) : World :=
  w |> setCamera (Some stream) (stream :: liveStreams w)
    |> setCameraRequests (pred (cameraRequests w)).

(** [startCamera] after [getUserMedia] has rejected: the [catch]. *)
Definition startCamera_denied (w : World) : World :=
  w |> onState (setErrorMsg (Some "Could not access camera. Please ensure permissions are granted."%string))
    |> onState (setAppState ERROR)
    |> setCameraRequests (pred (cameraRequests w)).

Definition stopCamera (w : World) : World :=
  match streamRef w with
  | Some stream => w |> setCamera None (filter (λ t, t ≠ stream) (liveStreams w))
  | None => w
  end.

(** [videoRef.current] and [canvasRef.current] are set exactly while
    the elements of [renderCamera] are mounted, that is while the
    render switch (lines 487-497) shows the camera screen. *)
Definition cameraMounted (w : World) : bool :=
  bool_decide (appState (state w) = CAMERA).

(** [capturePhoto]; [frame] is [canvas.toDataURL(...)], or [None] when
    the canvas gives no 2d context. *)
Definition capturePhoto (frame : option string) (w : World) : World :=
  if cameraMounted w then
    match frame with
    | Some dataUrl =>
      let newImages := capturedImages (state w) ++ [dataUrl] in
      if decide (length newImages = 3) then
        w |> stopCamera
          |> onState (setAppState PREVIEW)
          |> onState (setCapturedImages newImages)
      else
        w |> onState (setCaptureStep (captureStep (state w) + 1))
          |> onState (setCapturedImages newImages)
    | None => w
    end
  else w.

Definition retakePhoto (w : World) : World :=
  w |> onState (setCapturedImages [])
    |> onState (setCaptureStep 0)
    |> onState (setAnalysisResult None)
    |> onState (setGeneratedImages [])
    |> startCamera.

Definition resetApp (w : World) : World :=
  w |> onState (setCapturedImages [])
    |> onState (setCaptureStep 0)
    |> onState (setAnalysisResult None)
    |> onState (setGeneratedImages [])
    |> onState (setSelectedIndices [])
    |> onState (setAppState IDLE)
    |> stopCamera.

(** *** Analysis (lines 106-121) *)

(** [performAnalysis] up to its [await]: the guard, the state change
    and the call [analyzeFace(capturedImages)]. *)
Definition performAnalysis (w : World) : World :=
  if decide (length (capturedImages (state w)) = 0) then w
  else
    w |> onState (setAppState ANALYZING)
      |> setAnalyses (analyzeFaceCalls w ++ [capturedImages (state w)])
                     (S (analysesInFlight w)).

(** [performAnalysis] after the [await]: the rest of the [try] when the
    call fulfilled, the [catch] when it rejected. *)
Definition performAnalysis_resume (o : Outcome AnalysisResult) (s : State) : State :=
  match o with
  | Ok analysis =>
      s |> setAnalysisResult (Some analysis)
        |> setSelectedIndices []
        |> setAppState SELECTION
  | Throw err =>
      s |> setErrorMsg (Some (orElse (message err) "Failed to analyze face."))
        |> setAppState ERROR
  end.

Definition performAnalysis_settled (o : Outcome AnalysisResult) (w : World) : World :=
  w |> onState (performAnalysis_resume o)
    |> setAnalyses (analyzeFaceCalls w) (pred (analysesInFlight w)).

(** *** Selection (lines 123-132) *)

Definition toggleSelection (index : nat) (w : World) : World :=
  w |> onState (λ s, setSelectedIndices
                       (Selection.toggleSelection index (selectedIndices s)) s).

(** *** Generation (lines 134-159) *)

(** [l.filter((_, idx) => p(idx))], the positions counted from
    [from]. *)
Fixpoint filterByIndex {A} (p : nat → bool) (from : nat) (l : list A) : list A :=
  match l with
  | [] => []
  | x :: r =>
      if p from then x :: filterByIndex p (S from) r
      else filterByIndex p (S from) r
  end.

Definition selectedSuggestions (r : AnalysisResult) (sel : list nat)
    : list HairstyleSuggestion :=
  filterByIndex (λ idx, bool_decide (idx ∈ sel)) 0 (suggestions r).

(** The continuation of [await Promise.all(promises)]. *)
Definition generateSelected_resume (o : Outcome (list GeneratedImage)) (s : State) : State :=
  match o with
  | Ok images =>
      s |> setGeneratedImages images
        |> setAppState RESULTS
  | Throw err =>
      s |> setErrorMsg (Some (orElse (message err) "Failed to generate images."))
        |> setAppState ERROR
  end.

(** [generateSelected] up to its [await]: the guard, the state change,
    and one promise (one [generateHairstyleImage] call) per selected
    suggestion. [Promise.all] of no promise at all fulfils at once. *)
Definition generateSelected (w : World) : World :=
  match analysisResult (state w) with
  | None => w
  | Some r =>
    if decide (length (selectedIndices (state w)) = 0) then w
    else
      let frontImage := capturedImages (state w) !! 0 in
      let selected := selectedSuggestions r (selectedIndices (state w)) in
      let w1 := w |> onState (setAppState GENERATING) in
      match selected with
      | [] => w1 |> onState (generateSelected_resume (Ok []))
      | _ =>
        w1 |> setBatches (batches w ++
                [mkBatch selected frontImage (replicate (length selected) None) false])
      end
  end.

(** The arguments of the [generateHairstyleImage] calls a batch has
    made, in the order of its promises. *)
Definition renderCalls (b : Batch) : list (option string * string * string) :=
  (λ sg, (batchFront b, name sg, description sg)) <$> batchSuggestions b.

(** What each call of a batch comes to against a given credential source
    and endpoint, as settlements in the order of the calls. *)
Definition callRenders (env : GeminiService.Environment) (remote : GeminiService.Remote)
    (b : Batch) : list (nat * Outcome string) :=
  imap (λ i call,
          (i, (GeminiService.generateHairstyleImage env remote
                 call.1.1 call.1.2 call.2).1))
       (renderCalls b).

(** All the values, when every promise has fulfilled. *)
Fixpoint collect {A} (l : list (option A)) : option (list A) :=
  match l with
  | [] => Some []
  | Some x :: r => (x ::.) <$> collect r
  | None :: _ => None
  end.

(** The [i]-th promise of a batch settles with [o] (the outcome of its
    [generateHairstyleImage] call). [Promise.all] rejects on the first
    rejection, fulfils once every promise has, and ignores what comes
    after it has settled; it yields its outcome when it settles. *)
Definition settleRender (i : nat) (o : Outcome string) (b : Batch)
    : Batch * option (Outcome (list GeneratedImage)) :=
  if batchSettled b then (b, None)
  else
    match batchSuggestions b !! i, fulfilled b !! i with
    | Some suggestion, Some None =>
      match o with
      | Throw err =>
          (mkBatch (batchSuggestions b) (batchFront b) (fulfilled b) true,
           Some (Throw err))
      | Ok url =>
          let image := {| hairstyleName := name suggestion; imageUrl := url |} in
          let values := <[i := Some image]> (fulfilled b) in
          match collect values with
          | Some images =>
              (mkBatch (batchSuggestions b) (batchFront b) values true,
               Some (Ok images))
          | None =>
              (mkBatch (batchSuggestions b) (batchFront b) values false, None)
          end
      end
    | _, _ => (b, None)
    end.

(** The same on a batch and the component's state: the continuation of
    [generateSelected] runs when the aggregate settles. *)
Definition settleIn (e : nat * Outcome string) (bs : Batch * State) : Batch * State :=
  let '(b', r) := settleRender e.1 e.2 bs.1 in
  (b', match r with
       | Some out => generateSelected_resume out bs.2
       | None => bs.2
       end).

(** The [i]-th promise of the [k]-th batch settles. *)
Definition generateSelected_settled (k : nat) (e : nat * Outcome string) (w : World) : World :=
  match batches w !! k with
  | Some b =>
      let bs := settleIn e (b, state w) in
      w |> onState (λ _, bs.2) |> setBatches (<[k := bs.1]> (batches w))
  | None => w
  end.

Definition settleRenders (k : nat) (es : list (nat * Outcome string)) (w : World) : World :=
  foldl (λ w e, generateSelected_settled k e w) w es.

(** A sequence of settlements, oldest first. *)
Definition settleAllIn (es : list (nat * Outcome string)) (bs : Batch * State)
    : Batch * State :=
  foldl (λ bs e, settleIn e bs) bs es.

(** The promises of a batch that have not fulfilled yet. *)
Fixpoint pending {A} (l : list (option A)) : nat :=
  match l with
  | [] => 0
  | None :: r => S (pending r)
  | Some _ :: r => pending r
  end.

(** Each value of a batch carries the name of the suggestion its
    promise was made for. *)
Definition namedAfter (b : Batch) : Prop :=
  Forall2 (λ sg v, match v with
                   | Some g => hairstyleName g = name sg
                   | None => True
                   end)
    (batchSuggestions b) (fulfilled b).

(** *** Download (lines 161-168 and 431) *)

Definition downloadImage (dataUrl filename : string) (w : World) : World :=
  w |> setDownloads (downloads w ++ [(dataUrl, filename)]).

(** [String.prototype.toLowerCase] is taken as it is: what follows
    holds whatever the built-in answers. *)
Section Runtime.
Variable toLowerCase : string → string.

(** The file name built in [renderResults]:
    [`styleai-${name.replace(/\s+/g, '-').toLowerCase()}.png`]. *)
Definition downloadFilename (hairstyleName : string) : string :=
  ("styleai-" ++ toLowerCase (replaceWhitespaceRuns "-" hairstyleName) ++ ".png")%string.

Definition clickDownload (generated : GeneratedImage) (w : World) : World :=
  downloadImage (imageUrl generated) (downloadFilename (hairstyleName generated)) w.

(** *** What can happen next

    The clicks the rendered screen offers (the render switch, lines
    487-497, and the handlers wired in each [render...]) and the
    settling of the calls in flight. *)

Inductive Event :=
  | ClickStart                            (* renderIdle: Start Analysis *)
  | ClickCapture (frame : option string)  (* renderCamera: Take Photo *)
  | ClickRetake                           (* renderPreview: Retake *)
  | ClickAnalyze                          (* renderPreview: Analyze *)
  | ClickStyle (index : nat)              (* renderSelection: a card *)
  | ClickGenerate                         (* renderSelection: Generate *)
  | ClickDownload (idx : nat)             (* renderResults: Download *)
  | ClickReset                            (* the close, Start Over, Try
                                             Another Photo and Try Again
                                             buttons *)
  | CameraGranted (stream : MediaStream)
  | CameraDenied
  | AnalysisSettled (o : Outcome AnalysisResult)
  | RenderSettled (k i : nat) (o : Outcome string).

Definition isClick (e : Event) : bool :=
  match e with
  | CameraGranted _ | CameraDenied | AnalysisSettled _ | RenderSettled _ _ _ => false
  | _ => true
  end.

(** [renderSelection] and [renderResults] return [null] without an
    analysis result. *)
Definition hasAnalysis (s : State) : bool := bool_decide (is_Some (analysisResult s)).

(** [canGenerate] of [renderSelection]. *)
Definition canGenerate (s : State) : bool :=
  bool_decide (0 < length (selectedIndices s)) && bool_decide (length (selectedIndices s) ≤ 2).

(** [isDisabled] of a card of [renderSelection]. *)
Definition isDisabled (index : nat) (s : State) : bool :=
  negb (bool_decide (index ∈ selectedIndices s)) && bool_decide (2 ≤ length (selectedIndices s)).

Definition offered (e : Event) (w : World) : bool :=
  let s := state w in
  match e with
  | ClickStart => bool_decide (appState s = IDLE)
  | ClickCapture _ => bool_decide (appState s = CAMERA)
  | ClickRetake | ClickAnalyze => bool_decide (appState s = PREVIEW)
  | ClickStyle index =>
      bool_decide (appState s = SELECTION) &&
      match analysisResult s with
      | Some r => bool_decide (index < length (suggestions r))
      | None => false
      end
  | ClickGenerate =>
      bool_decide (appState s = SELECTION) && hasAnalysis s && canGenerate s
  | ClickDownload idx =>
      bool_decide (appState s = RESULTS) && hasAnalysis s &&
      bool_decide (idx < length (generatedImages s))
  | ClickReset =>
      bool_decide (appState s = CAMERA) || bool_decide (appState s = ERROR) ||
      (bool_decide (appState s = RESULTS) && hasAnalysis s)
  | CameraGranted stream =>
      bool_decide (0 < cameraRequests w) && bool_decide (stream ∉ liveStreams w)
  | CameraDenied => bool_decide (0 < cameraRequests w)
  | AnalysisSettled _ => bool_decide (0 < analysesInFlight w)
  | RenderSettled k _ _ => bool_decide (k < length (batches w))
  end.

Definition handle (e : Event) (w : World) : World :=
  match e with
  | ClickStart => startCamera w
  | ClickCapture frame => capturePhoto frame w
  | ClickRetake => retakePhoto w
  | ClickAnalyze => performAnalysis w
  | ClickStyle index =>
      if isDisabled index (state w) then w else toggleSelection index w
  | ClickGenerate => generateSelected w
  | ClickDownload idx =>
      match generatedImages (state w) !! idx with
      | Some generated => clickDownload generated w
      | None => w
      end
  | ClickReset => resetApp w
  | CameraGranted stream => startCamera_granted stream w
  | CameraDenied => startCamera_denied w
  | AnalysisSettled o => performAnalysis_settled o w
  | RenderSettled k i o => generateSelected_settled k (i, o) w
  end.

Definition step (e : Event) (w : World) : option World :=
  if offered e w then Some (handle e w) else None.

Fixpoint run (es : list Event) (w : World) : option World :=
  match es with
  | [] => Some w
  | e :: es' => w' ← step e w; run es' w'
  end.

End Runtime.

(** The message on screen: [errorMsg] is read by [renderError] only. *)
Definition shownError (s : State) : option string :=
  if decide (appState s = ERROR) then errorMsg s else None.

(** *** What holds of the buffer along every run

    The Preview screen is shown with exactly three images, the camera
    screen with fewer, and no [analyzeFace] call was made with another
    number of images than three. *)
Definition bufferInvariant (w : World) : Prop :=
  (appState (state w) = PREVIEW → length (capturedImages (state w)) = 3)
  ∧ (appState (state w) = CAMERA → length (capturedImages (state w)) < 3)
  ∧ Forall (λ images : list string, length images = 3) (analyzeFaceCalls w).

End App.

(** ** The expected shape, in the words of the design description *)

Module Spec.
Import Js Json.

Definition isString (v : option json) : bool :=
  match v with Some (JString _) => true | _ => false end.

Definition isNonEmptyString (v : option json) : bool :=
  match v with Some (JString s) => truthy (Some s) | _ => false end.

(** A suggestion record: non-empty [name], [description] and
    [reasoning]. *)
Definition suggestionShape (v : json) : bool :=
  isNonEmptyString (prop "name" v)
  && isNonEmptyString (prop "description" v)
  && isNonEmptyString (prop "reasoning" v).

(** The expected shape of an analysis result: a [faceShape] string
    plus exactly 5 suggestion records. *)
Definition expectedShape (v : json) : bool :=
  isString (prop "faceShape" v)
  && match prop "suggestions" v with
     | Some (JArray items) =>
         bool_decide (length items = 5) && forallb suggestionShape items
     | _ => false
     end.

(** Replacing spaces with hyphens, character by character. *)
Fixpoint spacesToHyphens (s : string) : string :=
  match s with
  | EmptyString => EmptyString
  | String c r =>
      String (if decide (c = " "%char) then "-"%char else c) (spacesToHyphens r)
  end.

(** The derived file name as the design description words it: the
    hairstyle name lower-cased, spaces replaced with hyphens, and a
    [.png] suffix. *)
Definition derivedFilename (toLowerCase : string → string) (hairstyleName : string) : string :=
  (toLowerCase (spacesToHyphens hairstyleName) ++ ".png")%string.

(** The only whitespace of [s] is single spaces: no other character of
    the class [\s], no two spaces in a row ([afterSpace] tells that the
    previous character was one). *)
Fixpoint singleSpacedFrom (afterSpace : bool) (s : string) : bool :=
  match s with
  | EmptyString => true
  | String c r =>
      if startsWithWhitespace (String c r)
      then bool_decide (c = " "%char) && negb afterSpace && singleSpacedFrom true r
      else singleSpacedFrom false r
  end.

Definition singleSpaced (s : string) : bool := singleSpacedFrom false s.

End Spec.

(** ** Sample inputs *)

Module Samples.
Import Js Json GeminiService App.
Local Open Scope string_scope.

(** The world after [startCamera] and the user's grant of stream 7. *)
Definition cameraWorld : World := startCamera_granted 7 (startCamera initialWorld).

(** No credential anywhere; a credential in [process.env]. *)
Definition bareEnv : Environment :=
  {| process_env_API_KEY := Some None; import_meta_env_VITE_API_KEY := None |}.
Definition keyEnv : Environment :=
  {| process_env_API_KEY := Some (Some "k-123"); import_meta_env_VITE_API_KEY := None |}.

(** A remote endpoint that answers every request with the text [t]. *)
Definition answering (t : string) : Remote :=
  λ _, Ok {| text := Some t; candidates := None |}.

(** The JSON text of a face shape with no suggestion at all. *)
Definition noSuggestionsText : string :=
  "{" ++ quoted "faceShape" ++ ":" ++ quoted "Oval" ++ ","
      ++ quoted "suggestions" ++ ":[]}".

Definition threeImages : list string :=
  ["data:image/jpeg;base64,AAAA"; "data:image/jpeg;base64,BBBB"; "data:image/jpeg;base64,CCCC"].

(** Three captures and a click on Analyze. *)
Definition captureAndAnalyze : list Event :=
  [ClickStart; CameraGranted 7;
   ClickCapture (Some "data:image/jpeg;base64,AAAA");
   ClickCapture (Some "data:image/jpeg;base64,BBBB");
   ClickCapture (Some "data:image/jpeg;base64,CCCC");
   ClickAnalyze].

Definition analyzingWorld : World :=
  foldl (λ w e, handle lowerCaseAscii e w) initialWorld captureAndAnalyze.

Definition suggestion (n : string) : HairstyleSuggestion :=
  {| name := n; description := n ++ " cut"; reasoning := "suits an oval face" |}.

(** An analysis result as the remote service promises it. *)
Definition ovalResult : AnalysisResult :=
  {| faceShape := "Oval";
     suggestions := [suggestion "Pixie"; suggestion "Bob"; suggestion "Shag";
                     suggestion "Lob"; suggestion "Fringe"] |}.

(** The selection screen with the styles 2 and 0 picked, in that
    order. *)
Definition selectionWorld : World :=
  mkWorld (mkState SELECTION threeImages 2 (Some ovalResult) [2; 0] [] None)
    None [] [] 0 [threeImages] 0 [].

Definition pickTwo : list Event :=
  captureAndAnalyze ++ [AnalysisSettled (Ok ovalResult); ClickStyle 2; ClickStyle 0].

(** The second call answers first; both succeed. *)
Definition bothSucceed : list (nat * Outcome string) :=
  [(1, Ok "data:image/png;base64,SHAG"); (0, Ok "data:image/png;base64,PIXIE")].

(** The second call succeeds, then the first one fails. *)
Definition oneFails : list (nat * Outcome string) :=
  [(1, Ok "data:image/png;base64,SHAG"); (0, Throw (Error "No image generated in response."))].

(** An endpoint that answers every request with one inline image. *)
Definition rendering (payload : string) : Remote :=
  λ _, Ok {| text := None;
             candidates := Some [{| content := Some {| contentParts :=
               Some [{| inlineData := None |};
                     {| inlineData := Some {| data := Some payload |} |}] |} |}] |}.

(** A response whose first candidate has a text-only part and then an
    inline image. *)
Definition imageResponse : Response :=
  {| text := None;
     candidates := Some [{| content := Some {| contentParts :=
       Some [{| inlineData := None |};
             {| inlineData := Some {| data := Some "SEVMTE8=" |} |}] |} |}] |}.

(** Up to the preview; one photo taken; the camera refused. *)
Definition toPreview : list Event :=
  [ClickStart; CameraGranted 7;
   ClickCapture (Some "data:image/jpeg;base64,AAAA");
   ClickCapture (Some "data:image/jpeg;base64,BBBB");
   ClickCapture (Some "data:image/jpeg;base64,CCCC")].
Definition previewWorld : World :=
  foldl (λ w e, handle lowerCaseAscii e w) initialWorld toPreview.

Definition oneShot : list Event :=
  [ClickStart; ClickCapture (Some "data:image/jpeg;base64,AAAA")].
Definition oneShotWorld : World :=
  foldl (λ w e, handle lowerCaseAscii e w) initialWorld oneShot.

Definition cameraDenied : list Event := [ClickStart; CameraDenied].
Definition deniedWorld : World :=
  foldl (λ w e, handle lowerCaseAscii e w) initialWorld cameraDenied.

(** Two styles picked and Generate clicked; then both renders done and
    the first image downloaded. *)
Definition generatingRun : list Event := pickTwo ++ [ClickGenerate].
Definition generatingWorld : World :=
  foldl (λ w e, handle lowerCaseAscii e w) initialWorld generatingRun.


End Samples.

(** ** What the screens compute ([src/App.tsx], the [render...] functions) *)

Module Render.
Import App.

Record Instruction := { text : string; sub : string }.

(** [instructions] of [renderCamera] (lines 202-206). *)
Definition instructions : list Instruction :=
  [ {| text := "Front View"; sub := "Look straight at the camera" |};
    {| text := "Left Profile"; sub := "Turn your head slightly to the right" |};
    {| text := "Right Profile"; sub := "Turn your head slightly to the left" |} ].

(** [instructions[captureStep]] (line 208); [renderCamera] reads its
    [text] and [sub], which raises when the entry is [undefined]. *)
Definition currentInstruction (s : State) : option Instruction :=
  instructions !! captureStep s.

(** [analysisResult.suggestions.find(s => s.name ===
    generated.hairstyleName)] of [renderResults] (line 420). *)
Definition findSuggestion (r : AnalysisResult) (generated : GeneratedImage)
    : option HairstyleSuggestion :=
  find (λ s, bool_decide (name s = hairstyleName generated)) (suggestions r).

End Render.

(** ** What a response part carries, and what holds along every run *)

Module Flow.
Import Js GeminiService App.

(** [part.inlineData && part.inlineData.data] as a value: the payload
    of a part, when it has a non-empty one. *)
Definition imagePayload (p : ResponsePart) : option string :=
  match inlineData p with
  | Some b => if truthy (data b) then data b else None
  | None => None
  end.

(** The screens before an analysis: Idle, the camera, the preview. *)
Definition earlyScreen (s : AppState) : Prop :=
  s = IDLE ∨ s = CAMERA ∨ s = PREVIEW.

(** On the early screens nothing of an analysis is stored. *)
Definition earlyScreensClean (w : World) : Prop :=
  earlyScreen (appState (state w)) →
  analysisResult (state w) = None
  ∧ selectedIndices (state w) = []
  ∧ generatedImages (state w) = [].

(** The selection is a set of at most two positions of the stored
    analysis result. *)
Definition selectionInvariant (w : World) : Prop :=
  length (selectedIndices (state w)) ≤ 2
  ∧ NoDup (selectedIndices (state w))
  ∧ ∀ i, i ∈ selectedIndices (state w) →
         ∃ r, analysisResult (state w) = Some r ∧ i < length (suggestions r).

(** Every [Promise.all] was made of one or two promises. *)
Definition batchInvariant (w : World) : Prop :=
  Forall (λ b, 1 ≤ length (batchSuggestions b) ≤ 2
               ∧ length (fulfilled b) = length (batchSuggestions b))
         (batches w).

(** On the camera screen the step counts the photos taken. *)
Definition cameraInvariant (w : World) : Prop :=
  length (capturedImages (state w)) ≤ 3
  ∧ (appState (state w) = CAMERA →
     captureStep (state w) = length (capturedImages (state w))
     ∧ captureStep (state w) < 3).

(** The Error screen has a message to show. *)
Definition errorInvariant (w : World) : Prop :=
  appState (state w) = ERROR →
  ∃ m, errorMsg (state w) = Some m ∧ m ≠ EmptyString.


Definition flowInvariant (w : World) : Prop :=
  earlyScreensClean w ∧ selectionInvariant w ∧ batchInvariant w
  ∧ cameraInvariant w ∧ errorInvariant w.

End Flow.

(** * Properties *)

(** ** The selection set *)

Lemma toggleSelection_length index prev :
  length prev ≤ 2 → length (Selection.toggleSelection index prev) ≤ 2.
Proof.
  intros Hle. unfold Selection.toggleSelection.
  destruct (decide (index ∈ prev)) as [Hin|Hout].
  - etrans; [apply length_filter|done].
  - destruct (decide (2 ≤ length prev)); [done|].
    rewrite length_app. simpl. lia.
Qed.

Lemma toggleSelection_NoDup index prev :
  NoDup prev → NoDup (Selection.toggleSelection index prev).
Proof.
  intros Hnd. unfold Selection.toggleSelection.
  destruct (decide (index ∈ prev)) as [Hin|Hout].
  - by apply NoDup_filter.
  - destruct (decide (2 ≤ length prev)); [done|].
    apply NoDup_app. split_and!; [done| |apply NoDup_singleton].
    intros x Hx ->%list_elem_of_singleton. done.
Qed.

Lemma toggles_invariant clicks sel :
  length sel ≤ 2 → NoDup sel →
  length (Selection.toggles clicks sel) ≤ 2 ∧ NoDup (Selection.toggles clicks sel).
Proof.
  revert sel. induction clicks as [|j clicks IH]; intros sel Hle Hnd.
  - done.
  - simpl. apply IH.
    + by apply toggleSelection_length.
    + by apply toggleSelection_NoDup.
Qed.

Lemma filter_ne_absent (index : nat) (prev : list nat) :
  index ∉ filter (λ i, i ≠ index) prev.
Proof. rewrite list_elem_of_filter. intros [Hne _]. by apply Hne. Qed.

(** Removing the one occurrence of [index] and appending it again
    permutes the list. *)
Lemma filter_ne_snoc (index : nat) (prev : list nat) :
  NoDup prev → index ∈ prev →
  filter (λ i, i ≠ index) prev ++ [index] ≡ₚ prev.
Proof.
  intros Hnd Hin. apply NoDup_Permutation; [|done|].
  - apply NoDup_app. split_and!.
    + by apply NoDup_filter.
    + intros x Hx ->%list_elem_of_singleton. by apply filter_ne_absent in Hx.
    + apply NoDup_singleton.
  - intros x. rewrite elem_of_app, list_elem_of_filter, list_elem_of_singleton. split.
    + by intros [[_ Hx]| ->].
    + intros Hx. destruct (decide (x = index)) as [->|Hne]; [by right|by left].
Qed.

Lemma filter_ne_length_lt (index : nat) (prev : list nat) :
  index ∈ prev → length (filter (λ i, i ≠ index) prev) < length prev.
Proof.
  induction prev as [|y prev IH]; intros Hin.
  - by apply elem_of_nil in Hin.
  - rewrite filter_cons. destruct (decide (y ≠ index)) as [Hne|Heq].
    + simpl. apply elem_of_cons in Hin as [->|Hin]; [done|].
      specialize (IH Hin). lia.
    + simpl. pose proof (length_filter (λ i, i ≠ index) prev). lia.
Qed.

Lemma filter_ne_id (index : nat) (prev : list nat) :
  index ∉ prev → filter (λ i, i ≠ index) prev = prev.
Proof.
  induction prev as [|y prev IH]; intros Hout; [done|].
  apply not_elem_of_cons in Hout as [Hne Hout].
  rewrite filter_cons_True by done. by rewrite IH.
Qed.

Lemma toggleSelection_twice (index : nat) (sel : list nat) :
  length sel ≤ 2 → NoDup sel →
  Selection.toggleSelection index (Selection.toggleSelection index sel) ≡ₚ sel.
Proof.
  intros Hle Hnd. unfold Selection.toggleSelection at 2.
  destruct (decide (index ∈ sel)) as [Hin|Hout].
  - (* removed, then appended again *)
    unfold Selection.toggleSelection.
    destruct (decide (index ∈ filter _ sel)) as [Hin'|_].
    { by apply filter_ne_absent in Hin'. }
    pose proof (filter_ne_length_lt index sel Hin) as Hlt.
    destruct (decide (2 ≤ length (filter _ sel))) as [Hge|_]; [lia|].
    by apply filter_ne_snoc.
  - destruct (decide (2 ≤ length sel)) as [Hfull|Hroom].
    + (* the set is full: both clicks are refused *)
      unfold Selection.toggleSelection.
      rewrite decide_False by done. by rewrite decide_True by done.
    + (* appended, then removed again *)
      unfold Selection.toggleSelection.
      rewrite decide_True by (apply elem_of_app; right; apply list_elem_of_singleton; done).
      rewrite filter_app, filter_ne_id by done.
      rewrite filter_cons_False by (intros H; by apply H).
      by rewrite filter_nil, app_nil_r.
Qed.

(** C4. On a selection set ([sel] without repetition, of size at most
    2), [toggleSelection i] applied twice gives back the same set (the
    same indices, possibly in another order); whatever sequence of
    [toggleSelection] calls follows, the size never exceeds 2 and no
    index is repeated; and toggling a third index [j] while two are
    selected is a no-op that returns the selection itself. *)
Theorem toggleSelection_involutive_bounded (sel : list nat) (i j : nat) (clicks : list nat) :
  length sel ≤ 2 → NoDup sel →
  Selection.toggleSelection i (Selection.toggleSelection i sel) ≡ₚ sel
  ∧ length (Selection.toggles clicks sel) ≤ 2
  ∧ NoDup (Selection.toggles clicks sel)
  ∧ (2 ≤ length sel → j ∉ sel → Selection.toggleSelection j sel = sel).
Proof.
  intros Hle Hnd. split_and!.
  - by apply toggleSelection_twice.
  - by apply toggles_invariant.
  - by apply toggles_invariant.
  - intros Hfull Hout. unfold Selection.toggleSelection.
    rewrite decide_False by done. by rewrite decide_True by done.
Qed.

Lemma toggleSelection_involutive_bounded_witness :
  Selection.toggleSelection 1 (Selection.toggleSelection 1 [0; 1]) ≡ₚ [0; 1]
  ∧ length (Selection.toggles [3; 0; 2; 2; 4] [0; 1]) ≤ 2
  ∧ NoDup (Selection.toggles [3; 0; 2; 2; 4] [0; 1])
  ∧ (2 ≤ length [0; 1] → 3 ∉ [0; 1] → Selection.toggleSelection 3 [0; 1] = [0; 1]).
Proof.
  apply (toggleSelection_involutive_bounded [0; 1] 1 3 [3; 0; 2; 2; 4]).
  - simpl. lia.
  - apply (bool_decide_unpack _). vm_compute. reflexivity.
Defined.

(** The order may change: the re-selected index goes to the end. *)
Example toggleSelection_twice_reorders :
  Selection.toggleSelection 0 (Selection.toggleSelection 0 [0; 1]) = [1; 0].
Proof. reflexivity. Qed.

(** ** Reset and capture *)

Section Camera.
Import App.

Lemma stopCamera_state (w : World) : state (stopCamera w) = state w.
Proof. unfold stopCamera. by destruct (streamRef w). Qed.

Lemma stopCamera_streamRef (w : World) : streamRef (stopCamera w) = None.
Proof. unfold stopCamera. by destruct (streamRef w) eqn:E. Qed.

(** After [stopCamera] the stream that was held is not live any more;
    without a held stream nothing changes. *)
Lemma stopCamera_releases (w : World) :
  match streamRef w with
  | Some stream => stream ∉ liveStreams (stopCamera w)
  | None => liveStreams (stopCamera w) = liveStreams w
  end.
Proof.
  unfold stopCamera. destruct (streamRef w) as [stream|]; [|done].
  simpl. apply filter_ne_absent.
Qed.

(** C6. From every state, [resetApp] empties the image buffer, the
    analysis result, the selection and the generated images, goes to
    Idle, and releases the camera stream when one is held: the
    reference is dropped and the stream is not live afterwards. *)
Theorem resetApp_clears_and_releases (w : World) :
  capturedImages (state (resetApp w)) = []
  ∧ analysisResult (state (resetApp w)) = None
  ∧ selectedIndices (state (resetApp w)) = []
  ∧ generatedImages (state (resetApp w)) = []
  ∧ appState (state (resetApp w)) = IDLE
  ∧ streamRef (resetApp w) = None
  ∧ match streamRef w with
    | Some stream => stream ∉ liveStreams (resetApp w)
    | None => liveStreams (resetApp w) = liveStreams w
    end.
Proof.
  unfold resetApp. rewrite stopCamera_state, stopCamera_streamRef.
  split_and!; try reflexivity.
  match goal with |- context [stopCamera ?w'] => pose proof (stopCamera_releases w') as H end.
  exact H.
Qed.

(** C10. [resetApp] leaves [errorMsg] as it was while it resets each
    of the six other cells; the Idle screen it leads to does not show
    the message. *)
Theorem resetApp_keeps_errorMsg (w : World) :
  errorMsg (state (resetApp w)) = errorMsg (state w)
  ∧ state (resetApp w) = mkState IDLE [] 0 None [] [] (errorMsg (state w))
  ∧ shownError (state (resetApp w)) = None.
Proof.
  unfold resetApp. rewrite stopCamera_state. by split_and!.
Qed.

(** A message left by a failed run is still stored after the reset. *)
Example resetApp_stale_message :
  errorMsg (state (resetApp (startCamera_denied (startCamera initialWorld))))
  = Some "Could not access camera. Please ensure permissions are granted."%string.
Proof. reflexivity. Qed.

(** C7. On the camera screen with an empty buffer (as [startCamera]
    leaves it), three successful [capturePhoto] calls give a buffer of
    exactly the three frames in capture order, front, left, right. The
    first two keep the camera and the screen and move the step to 1
    and 2; the third releases the camera at once (the reference is
    dropped and the stream is not live) and goes to Preview. *)
Theorem capturePhoto_three_times (w : World) (front left right : string) :
  appState (state w) = CAMERA →
  capturedImages (state w) = [] →
  captureStep (state w) = 0 →
  let w1 := capturePhoto (Some front) w in
  let w2 := capturePhoto (Some left) w1 in
  let w3 := capturePhoto (Some right) w2 in
  (appState (state w1) = CAMERA ∧ captureStep (state w1) = 1
     ∧ capturedImages (state w1) = [front]
     ∧ streamRef w1 = streamRef w ∧ liveStreams w1 = liveStreams w)
  ∧ (appState (state w2) = CAMERA ∧ captureStep (state w2) = 2
     ∧ capturedImages (state w2) = [front; left]
     ∧ streamRef w2 = streamRef w ∧ liveStreams w2 = liveStreams w)
  ∧ capturedImages (state w3) = [front; left; right]
  ∧ length (capturedImages (state w3)) = 3
  ∧ appState (state w3) = PREVIEW
  ∧ streamRef w3 = None
  ∧ match streamRef w with
    | Some stream => stream ∉ liveStreams w3
    | None => liveStreams w3 = liveStreams w
    end.
Proof.
  destruct w as [[st imgs stp res sel gen err] ref live dl cam calls infl bs].
  simpl. intros -> -> ->.
  unfold capturePhoto, cameraMounted. simpl.
  split_and!; try reflexivity.
  - by destruct ref.
  - destruct ref as [stream|]; simpl; [|done]. apply filter_ne_absent.
Qed.

Lemma capturePhoto_three_times_witness :
  let w1 := capturePhoto (Some "front"%string) Samples.cameraWorld in
  let w2 := capturePhoto (Some "left"%string) w1 in
  let w3 := capturePhoto (Some "right"%string) w2 in
  (appState (state w1) = CAMERA ∧ captureStep (state w1) = 1
     ∧ capturedImages (state w1) = ["front"%string]
     ∧ streamRef w1 = streamRef Samples.cameraWorld ∧ liveStreams w1 = liveStreams Samples.cameraWorld)
  ∧ (appState (state w2) = CAMERA ∧ captureStep (state w2) = 2
     ∧ capturedImages (state w2) = ["front"%string; "left"%string]
     ∧ streamRef w2 = streamRef Samples.cameraWorld ∧ liveStreams w2 = liveStreams Samples.cameraWorld)
  ∧ capturedImages (state w3) = ["front"%string; "left"%string; "right"%string]
  ∧ length (capturedImages (state w3)) = 3
  ∧ appState (state w3) = PREVIEW
  ∧ streamRef w3 = None
  ∧ 7 ∉ liveStreams w3.
Proof.
  apply (capturePhoto_three_times Samples.cameraWorld "front" "left" "right"); reflexivity.
Defined.

End Camera.

(** ** The remote clients *)

Section Service.
Import Js Json GeminiService.

Lemma getAiClient_missing (env : Environment) :
  truthy (mjoin (process_env_API_KEY env)) = false →
  truthy (mjoin (import_meta_env_VITE_API_KEY env)) = false →
  getAiClient env = Throw (Error apiKeyMissing).
Proof.
  intros Hp Hv. unfold getAiClient. rewrite Hp, Hv.
  destruct (mjoin (process_env_API_KEY env)) as [k|] eqn:E.
  - destruct (negb (truthy None) && bool_decide _); [by rewrite Hp|done].
  - by destruct (negb (truthy None) && bool_decide _).
Qed.

Lemma getAiClient_key (env : Environment) (k : string) :
  getAiClient env = Ok k → truthy (Some k) = true.
Proof.
  unfold getAiClient.
  match goal with |- context [match ?x with Some _ => _ | None => _ end] =>
    destruct x as [k'|] end; [|done].
  destruct (truthy (Some k')) eqn:E; [|done].
  by intros [= <-].
Qed.

(** Whatever the environment, a request is sent with a key only. *)
Lemma requests_carry_a_key
    (parse : string → Outcome json) (env : Environment) (remote : Remote)
    (images : list string) (front : option string) (style descr : string) :
  Forall (λ req, truthy (Some (apiKey req)) = true)
    ((analyzeFace parse env remote images).2
       ++ (generateHairstyleImage env remote front style descr).2).
Proof.
  unfold analyzeFace, generateHairstyleImage.
  destruct (getAiClient env) as [k|e] eqn:Hk; [|by constructor].
  apply getAiClient_key in Hk.
  apply Forall_app. split.
  - destruct (remote _) as [response|e]; [|by repeat constructor].
    destruct (negb _); by repeat constructor.
  - destruct front as [img|]; [|by constructor].
    destruct (remote _) as [response|e]; [|by repeat constructor].
    destruct (firstCandidateParts response) as [ps|]; [|by repeat constructor].
    destruct (firstInlineImage ps); by repeat constructor.
Qed.

(** C8. With no API key in the environment (neither
    [process.env.API_KEY] nor [import.meta.env.VITE_API_KEY] is set to
    a non-empty string), [analyzeFace] and [generateHairstyleImage]
    fail with the configuration error and send no request at all; and
    in any environment, every request either of them sends carries a
    non-empty key. *)
Theorem no_api_key_no_request
    (parse : string → Outcome json) (env : Environment) (remote : Remote)
    (images : list string) (front : option string) (style descr : string) :
  truthy (mjoin (process_env_API_KEY env)) = false →
  truthy (mjoin (import_meta_env_VITE_API_KEY env)) = false →
  analyzeFace parse env remote images = (Throw (Error apiKeyMissing), [])
  ∧ generateHairstyleImage env remote front style descr
    = (Throw (Error apiKeyMissing), [])
  ∧ ∀ env', Forall (λ req, truthy (Some (apiKey req)) = true)
              ((analyzeFace parse env' remote images).2
                 ++ (generateHairstyleImage env' remote front style descr).2).
Proof.
  intros Hp Hv. split_and!.
  - unfold analyzeFace. by rewrite (getAiClient_missing env Hp Hv).
  - unfold generateHairstyleImage. by rewrite (getAiClient_missing env Hp Hv).
  - intros env'. apply requests_carry_a_key.
Qed.

Lemma no_api_key_no_request_witness :
  analyzeFace JSON_parse Samples.bareEnv (Samples.answering "{}") Samples.threeImages
    = (Throw (Error apiKeyMissing), [])
  ∧ generateHairstyleImage Samples.bareEnv (Samples.answering "{}")
      (Some "data:image/jpeg;base64,AAAA"%string) "Bob" "Chin length"
    = (Throw (Error apiKeyMissing), []).
Proof.
  destruct (no_api_key_no_request JSON_parse Samples.bareEnv (Samples.answering "{}")
              Samples.threeImages (Some "data:image/jpeg;base64,AAAA"%string)
              "Bob" "Chin length" eq_refl eq_refl) as (Ha & Hg & _).
  split; [exact Ha|exact Hg].
Defined.

(** C2, as the code has it. With a credential and a response of the
    remote service: [analyzeFace] fails when the response has no text
    (absent or empty) and when [JSON.parse] rejects the text, with the
    error of either; otherwise it returns the value [JSON.parse] gave,
    whatever its shape (so, in particular, a value of the expected
    shape is returned as it is). Either way there is the error or the
    whole value, nothing in between. *)
Theorem analyzeFace_parse_only
    (parse : string → Outcome json) (env : Environment) (response : Response)
    (images : list string) (key : string) :
  getAiClient env = Ok key →
  let outcome := (analyzeFace parse env (λ _, Ok response) images).1 in
  (truthy (text response) = false → outcome = Throw (Error "No analysis generated."))
  ∧ (∀ t, text response = Some t → t ≠ EmptyString → outcome = parse t)
  ∧ (∀ v, outcome = Ok v ↔
          ∃ t, text response = Some t ∧ t ≠ EmptyString ∧ parse t = Ok v).
Proof.
  intros Hk. unfold analyzeFace. rewrite Hk. simpl.
  destruct (text response) as [[|c t]|] eqn:Ht; simpl.
  - split_and!; [done| |].
    + by intros t [= <-] Hne.
    + intros v. split; [done|]. by intros (t & [= <-] & Hne & _).
  - split_and!; [done| |].
    + by intros t' [= <-] _.
    + intros v. split.
      * intros Hv. by exists (String c t).
      * by intros (t' & [= <-] & _ & Hv).
  - split_and!; [done|done|].
    intros v. split; [done|]. by intros (t & Ht' & _).
Qed.

Lemma analyzeFace_parse_only_witness :
  let response := {| text := Some Samples.noSuggestionsText; candidates := None |} in
  let outcome :=
    (analyzeFace JSON_parse Samples.keyEnv (λ _, Ok response) Samples.threeImages).1 in
  (truthy (text response) = false → outcome = Throw (Error "No analysis generated."))
  ∧ (∀ t, text response = Some t → t ≠ EmptyString → outcome = JSON_parse t)
  ∧ (∀ v, outcome = Ok v ↔
          ∃ t, text response = Some t ∧ t ≠ EmptyString ∧ JSON_parse t = Ok v).
Proof.
  apply (analyzeFace_parse_only JSON_parse Samples.keyEnv _ _ "k-123"). reflexivity.
Defined.

(** C2 as stated fails: a well-formed JSON text that is a face shape
    with no suggestion at all (so not of the expected shape) is
    returned as the result instead of being rejected. *)
Lemma analyzeFace_returns_other_shapes :
  (analyzeFace JSON_parse Samples.keyEnv (Samples.answering Samples.noSuggestionsText)
     Samples.threeImages).1
  = Ok (JObject [("faceShape"%string, JString "Oval"); ("suggestions"%string, JArray [])])
  ∧ Spec.expectedShape
      (JObject [("faceShape"%string, JString "Oval"); ("suggestions"%string, JArray [])])
    = false.
Proof. split; vm_compute; reflexivity. Qed.

(** So is the empty object, and a number. *)
Example analyzeFace_returns_empty_object :
  (analyzeFace JSON_parse Samples.keyEnv (Samples.answering "{}") Samples.threeImages).1
  = Ok (JObject []).
Proof. vm_compute. reflexivity. Qed.

(** The text is refused when it is not JSON at all. *)
Example analyzeFace_rejects_non_json :
  isOk (analyzeFace JSON_parse Samples.keyEnv (Samples.answering "Oval, five styles")
          Samples.threeImages).1 = false.
Proof. vm_compute. reflexivity. Qed.

End Service.

(** ** The download file name *)

Section Download.
Import Js App.

(** A [\s] character in front is replaced, unless the run it belongs
    to has been replaced already, and the run goes on behind it. *)
Lemma replaceRunsFrom_whitespace (by_ : string) (inRun : bool) (c s : string) :
  c ∈ whitespaceChars →
  replaceRunsFrom by_ inRun 0 (c ++ s)
  = ((if inRun then EmptyString else by_) ++ replaceRunsFrom by_ true 0 s)%string.
Proof.
  intros H. cbv [whitespaceChars bytes fmap list_fmap] in H. cbn in H.
  repeat (apply elem_of_cons in H as [->|H]); try (by apply elem_of_nil in H);
    by destruct inRun.
Qed.

(** A run ends where no [\s] character follows. *)
Lemma replaceRunsFrom_leave (by_ : string) (s : string) :
  startsWithWhitespace s = false →
  replaceRunsFrom by_ true 0 s = replaceRunsFrom by_ false 0 s.
Proof.
  destruct s as [|c r]; [done|]. unfold startsWithWhitespace.
  cbn [replaceRunsFrom]. by destruct (whitespaceLength (String c r)).
Qed.

Lemma append_assoc (a b c : string) : ((a ++ b) ++ c = a ++ (b ++ c))%string.
Proof.
  induction a as [|x a IH]; [done|].
  change (String x ((a ++ b) ++ c) = String x (a ++ (b ++ c)))%string. by rewrite IH.
Qed.

Lemma replaceRunsFrom_run (by_ : string) (inRun : bool) (spaces : list string) (rest : string) :
  spaces ≠ [] →
  Forall (λ c, c ∈ whitespaceChars) spaces →
  startsWithWhitespace rest = false →
  replaceRunsFrom by_ inRun 0 (joined spaces ++ rest)
  = ((if inRun then EmptyString else by_) ++ replaceRunsFrom by_ false 0 rest)%string.
Proof.
  intros Hne Hall Hrest. revert inRun.
  induction Hall as [|c spaces Hc Hall IH]; [done|]. intros inRun.
  change (joined (c :: spaces)) with (c ++ joined spaces)%string. rewrite append_assoc.
  rewrite (replaceRunsFrom_whitespace _ _ _ _ Hc).
  destruct spaces as [|c' spaces'].
  - change (joined [] ++ rest)%string with rest. by rewrite replaceRunsFrom_leave.
  - by rewrite (IH ltac:(done) true).
Qed.

Lemma replaceRuns_single_spaced (inRun : bool) (s : string) :
  Spec.singleSpacedFrom inRun s = true →
  replaceRuns "-" inRun s = Spec.spacesToHyphens s.
Proof.
  unfold replaceRuns.
  revert inRun. induction s as [|c r IH]; intros inRun; [done|].
  cbn [Spec.singleSpacedFrom Spec.spacesToHyphens].
  destruct (startsWithWhitespace (String c r)) eqn:Hc.
  - intros [[Hsp Hrun]%andb_prop Hr]%andb_prop.
    apply bool_decide_eq_true in Hsp. apply negb_true_iff in Hrun. subst.
    change (replaceRunsFrom "-" false 0 (String " " r))
      with (String "-"%char (replaceRunsFrom "-" true 0 r)).
    rewrite (IH true Hr). by destruct (decide _).
  - intros Hr. unfold startsWithWhitespace in Hc. cbn [replaceRunsFrom].
    destruct (whitespaceLength (String c r)) eqn:Hl; [|discriminate Hc].
    rewrite (IH false Hr).
    destruct (decide (c = " "%char)) as [->|]; [discriminate Hl|done].
Qed.



(** C9, as the code has it. The file name of a download is [styleai-],
    then the lower-cased form of the hairstyle name in which every
    maximal run of [\s] characters has been replaced by one hyphen,
    then [.png]. The replacement leaves the empty string empty, turns a
    run of one or more [\s] characters that no [\s] character follows
    into a single hyphen and goes on behind it, and copies a byte that
    starts no [\s] character. When the only whitespace of the name is
    single spaces, the file name is [styleai-] followed by the name
    with spaces replaced by hyphens, lower-cased, and [.png]. The
    download is triggered under that name with the image as its
    content. *)
Theorem downloadFilename_derivation
    (toLowerCase : string → string) (generated : GeneratedImage) (w : World) :
  let name := hairstyleName generated in
  downloadFilename toLowerCase name
  = ("styleai-" ++ toLowerCase (replaceWhitespaceRuns "-" name) ++ ".png")%string
  ∧ replaceWhitespaceRuns "-" EmptyString = EmptyString
  ∧ (∀ (spaces : list string) (rest : string),
       spaces ≠ [] →
       Forall (λ c, c ∈ whitespaceChars) spaces →
       startsWithWhitespace rest = false →
       replaceWhitespaceRuns "-" (joined spaces ++ rest)
       = ("-" ++ replaceWhitespaceRuns "-" rest)%string)
  ∧ (∀ (c : ascii) (rest : string),
       startsWithWhitespace (String c rest) = false →
       replaceWhitespaceRuns "-" (String c rest)
       = String c (replaceWhitespaceRuns "-" rest))
  ∧ (Spec.singleSpaced name = true →
     downloadFilename toLowerCase name
     = ("styleai-" ++ Spec.derivedFilename toLowerCase name)%string)
  ∧ downloads (clickDownload toLowerCase generated w)
    = downloads w ++ [(imageUrl generated, downloadFilename toLowerCase name)].
Proof.
  split_and!.
  - reflexivity.
  - reflexivity.
  - intros spaces rest Hne Hall Hrest.
    apply (replaceRunsFrom_run "-" false spaces rest Hne Hall Hrest).
  - intros c rest Hc. unfold replaceWhitespaceRuns, replaceRuns, startsWithWhitespace in *.
    cbn [replaceRunsFrom]. by destruct (whitespaceLength (String c rest)).
  - intros Hs. unfold downloadFilename, Spec.derivedFilename, replaceWhitespaceRuns.
    by rewrite (replaceRuns_single_spaced false _ Hs).
  - reflexivity.
Qed.

Lemma downloadFilename_derivation_witness :
  replaceWhitespaceRuns "-" (joined [" "; bytes [194; 160]; " "] ++ "Bob")
  = ("-" ++ replaceWhitespaceRuns "-" "Bob")%string
  ∧ replaceWhitespaceRuns "-" "Bob" = String "B" (replaceWhitespaceRuns "-" "ob")
  ∧ downloadFilename lowerCaseAscii "Layered Bob"
    = ("styleai-" ++ Spec.derivedFilename lowerCaseAscii "Layered Bob")%string.
Proof.
  pose proof (downloadFilename_derivation lowerCaseAscii
                {| hairstyleName := "Layered Bob"; imageUrl := "data:image/png;base64,QQ" |}
                initialWorld) as (_ & _ & Hrun & Hword & Hspec & _).
  split_and!.
  - apply Hrun; [discriminate| |reflexivity].
    repeat (apply Forall_cons; split; [apply (bool_decide_unpack _); vm_compute; exact I|]).
    apply Forall_nil_2.
  - apply Hword. reflexivity.
  - apply Hspec. reflexivity.
Defined.

(** C9 as stated fails: the file name is not the name lower-cased with
    spaces replaced by hyphens and [.png] appended; the code puts
    [styleai-] in front and turns a run of two spaces into one
    hyphen. *)
Lemma downloadFilename_not_as_worded :
  downloadFilename lowerCaseAscii "Layered  Bob" = "styleai-layered-bob.png"%string
  ∧ Spec.derivedFilename lowerCaseAscii "Layered  Bob" = "layered--bob.png"%string
  ∧ downloadFilename lowerCaseAscii "Layered  Bob"
    ≠ Spec.derivedFilename lowerCaseAscii "Layered  Bob".
Proof. split_and!; [reflexivity|reflexivity|discriminate]. Qed.

(** The prefix alone already makes the two differ. *)
Example downloadFilename_prefix :
  downloadFilename lowerCaseAscii "Pixie" = "styleai-pixie.png"%string
  ∧ Spec.derivedFilename lowerCaseAscii "Pixie" = "pixie.png"%string.
Proof. split; reflexivity. Qed.

(** A tab, a line break or a no-break space (U+00A0) between two words
    becomes a hyphen as a space does, and the name is then not one the
    wording covers. *)
Example replaceWhitespaceRuns_other_whitespace :
  replaceWhitespaceRuns "-" ("Wet" ++ bytes [194; 160] ++ "Look") = "Wet-Look"%string
  ∧ replaceWhitespaceRuns "-" ("Wet" ++ bytes [9; 10] ++ "Look") = "Wet-Look"%string
  ∧ Spec.singleSpaced ("Wet" ++ bytes [194; 160] ++ "Look") = false.
Proof. split_and!; reflexivity. Qed.

End Download.

(** ** Analysis is reached with three images only *)

Section Reachability.
Import Js App.

Lemma stopCamera_calls (w : World) : analyzeFaceCalls (stopCamera w) = analyzeFaceCalls w.
Proof. unfold stopCamera. by destruct (streamRef w). Qed.

(** A settling render call leaves the buffer alone and, if it moves
    the flow at all, moves it to Results or Error. *)
Lemma settleIn_frame (e : nat * Outcome string) (b : Batch) (s : State) :
  capturedImages (settleIn e (b, s)).2 = capturedImages s
  ∧ (appState (settleIn e (b, s)).2 = appState s
     ∨ appState (settleIn e (b, s)).2 = RESULTS
     ∨ appState (settleIn e (b, s)).2 = ERROR).
Proof.
  unfold settleIn, settleRender. simpl.
  destruct (batchSettled b); [by auto|].
  destruct (batchSuggestions b !! e.1) as [sg|]; [|by auto].
  destruct (fulfilled b !! e.1) as [[g|]|]; [by auto| |by auto].
  destruct e.2 as [url|err]; simpl.
  - destruct (collect _); simpl; auto.
  - auto.
Qed.

Lemma handle_bufferInvariant (toLowerCase : string → string) (e : Event) (w : World) :
  bufferInvariant w → offered e w = true → bufferInvariant (handle toLowerCase e w).
Proof.
  intros (Hprev & Hcam & Hcalls) Hoff.
  destruct e; unfold offered in Hoff; unfold handle.
  - (* ClickStart *)
    unfold bufferInvariant, startCamera. simpl. split_and!; [done|lia|done].
  - (* ClickCapture *)
    apply bool_decide_eq_true in Hoff. specialize (Hcam Hoff).
    unfold capturePhoto, cameraMounted. rewrite bool_decide_eq_true_2 by done.
    destruct frame as [dataUrl|]; [|by split_and!; [intros ?; congruence| |]].
    destruct (decide _) as [Hlen|Hlen].
    + unfold bufferInvariant. simpl. rewrite stopCamera_calls. split_and!; done.
    + unfold bufferInvariant. simpl. rewrite length_app in *. simpl in *.
      split_and!; [congruence|lia|done].
  - (* ClickRetake *)
    unfold bufferInvariant, retakePhoto, startCamera. simpl. split_and!; [done|lia|done].
  - (* ClickAnalyze *)
    apply bool_decide_eq_true in Hoff. specialize (Hprev Hoff).
    unfold performAnalysis. destruct (decide _) as [Hz|_]; [lia|].
    unfold bufferInvariant. simpl. split_and!; [done|done|].
    apply Forall_app. split; [done|]. by constructor.
  - (* ClickStyle *)
    destruct (isDisabled _ _); [by split_and!|].
    unfold bufferInvariant, toggleSelection. simpl. by split_and!.
  - (* ClickGenerate *)
    apply andb_prop in Hoff as [[Hsel%bool_decide_eq_true _]%andb_prop _].
    unfold generateSelected.
    destruct (analysisResult (state w)) as [r|]; [|by split_and!; [congruence|congruence|]].
    destruct (decide _); [by split_and!; [congruence|congruence|]|].
    destruct (selectedSuggestions _ _); unfold bufferInvariant; simpl; by split_and!.
  - (* ClickDownload *)
    destruct (_ !! _); [|by split_and!].
    unfold bufferInvariant, clickDownload, downloadImage. simpl. by split_and!.
  - (* ClickReset *)
    unfold bufferInvariant, resetApp. rewrite stopCamera_state, stopCamera_calls.
    simpl. by split_and!.
  - (* CameraGranted *)
    unfold bufferInvariant, startCamera_granted. simpl. by split_and!.
  - (* CameraDenied *)
    unfold bufferInvariant, startCamera_denied. simpl. by split_and!.
  - (* AnalysisSettled *)
    unfold bufferInvariant, performAnalysis_settled. destruct o; simpl; by split_and!.
  - (* RenderSettled *)
    unfold generateSelected_settled.
    destruct (batches w !! k) as [b|]; [|by split_and!].
    destruct (settleIn_frame (i, o) b (state w)) as (Himgs & Hst).
    unfold bufferInvariant. simpl. rewrite Himgs.
    split_and!; [|
      |done].
    + intros Hp. apply Hprev. destruct Hst as [<-|[?|?]]; congruence.
    + intros Hp. apply Hcam. destruct Hst as [<-|[?|?]]; congruence.
Qed.

Lemma run_bufferInvariant
    (toLowerCase : string → string) (es : list Event) (w w' : World) :
  bufferInvariant w → run toLowerCase es w = Some w' → bufferInvariant w'.
Proof.
  revert w. induction es as [|e es IH]; intros w Hinv Hrun; simpl in Hrun.
  - by injection Hrun as <-.
  - unfold step in Hrun. destruct (offered e w) eqn:Hoff; [|done].
    simpl in Hrun. eapply IH; [|exact Hrun].
    by apply handle_bufferInvariant.
Qed.

(** C5. Along every run of the flow from its initial state (the clicks
    the screens offer, in any order and interleaved in any way with
    the settling of the calls in flight), every [analyzeFace] call was
    made with exactly 3 images, none with fewer; and whenever the
    Analyze button is on screen the buffer holds exactly 3 images. *)
Theorem analysis_only_with_three_images
    (toLowerCase : string → string) (es : list Event) (w : World) :
  run toLowerCase es initialWorld = Some w →
  Forall (λ images : list string, length images = 3) (analyzeFaceCalls w)
  ∧ (∀ images, images ∈ analyzeFaceCalls w → ¬ length images < 3)
  ∧ (offered ClickAnalyze w = true → length (capturedImages (state w)) = 3).
Proof.
  intros Hrun.
  assert (bufferInvariant w) as (Hprev & _ & Hcalls).
  { eapply run_bufferInvariant; [|exact Hrun].
    unfold bufferInvariant. simpl. split_and!; [done|lia|constructor]. }
  split_and!.
  - exact Hcalls.
  - intros images Hin. rewrite Forall_forall in Hcalls.
    specialize (Hcalls images Hin). lia.
  - intros Hoff. apply bool_decide_eq_true in Hoff. by apply Hprev.
Qed.

Lemma analysis_only_with_three_images_witness :
  analyzeFaceCalls Samples.analyzingWorld = [Samples.threeImages]
  ∧ Forall (λ images : list string, length images = 3)
      (analyzeFaceCalls Samples.analyzingWorld).
Proof.
  split; [reflexivity|].
  apply (analysis_only_with_three_images Js.lowerCaseAscii Samples.captureAndAnalyze
           Samples.analyzingWorld).
  vm_compute. reflexivity.
Defined.

(** The guard of [performAnalysis] itself refuses the empty buffer
    only: called on a buffer of one image (which no screen allows) it
    would make the call. *)
Example performAnalysis_guard_is_nonempty :
  analyzeFaceCalls
    (performAnalysis (capturePhoto (Some "data:image/jpeg;base64,AAAA"%string)
                        Samples.cameraWorld))
  = [["data:image/jpeg;base64,AAAA"%string]].
Proof. reflexivity. Qed.

End Reachability.

(** ** Generation: all or nothing *)

Section Generation.
Import Js App.

Lemma pending_replicate {A} (n : nat) : pending (replicate n (@None A)) = n.
Proof. induction n as [|n IH]; simpl; [done|by rewrite IH]. Qed.

Lemma collect_pending {A} (l : list (option A)) :
  collect l = None ↔ 0 < pending l.
Proof.
  induction l as [|[x|] l IH]; simpl.
  - split; [done|lia].
  - rewrite <- IH. destruct (collect l); simpl; split; done.
  - split; [lia|done].
Qed.

Lemma pending_lookup {A} (l : list (option A)) (i : nat) :
  l !! i = Some None → 0 < pending l.
Proof.
  revert i. induction l as [|[x|] l IH]; intros [|i]; simpl; try done; try lia.
  - apply IH.
Qed.

Lemma pending_insert {A} (l : list (option A)) (i : nat) (x : A) :
  l !! i = Some None → pending l = S (pending (<[i := Some x]> l)).
Proof.
  revert i. induction l as [|[y|] l IH]; intros [|i]; simpl; try done.
  - apply IH.
  - intros Hi. by rewrite (IH i Hi).
Qed.

Lemma collect_names (sgs : list HairstyleSuggestion) (vs : list (option GeneratedImage))
    (images : list GeneratedImage) :
  Forall2 (λ sg v, match v with
                   | Some g => hairstyleName g = name sg
                   | None => True
                   end) sgs vs →
  collect vs = Some images →
  hairstyleName <$> images = name <$> sgs.
Proof.
  intros H. revert images. induction H as [|sg v sgs vs Hv _ IH]; intros images; simpl.
  - by intros [= <-].
  - destruct v as [g|]; [|done].
    destruct (collect vs) as [rest|]; [|done]. simpl.
    intros [= <-]. simpl. rewrite Hv. f_equal. by apply IH.
Qed.

Lemma settleAllIn_settled (es : list (nat * Outcome string)) (b : Batch) (s : State) :
  batchSettled b = true → settleAllIn es (b, s) = (b, s).
Proof.
  intros Hb. induction es as [|e es IH]; [done|].
  unfold settleAllIn in *. simpl.
  unfold settleIn at 2, settleRender. simpl. by rewrite Hb.
Qed.

(** One fulfilment on a batch that has not settled. *)
Lemma settleIn_ok (i : nat) (url : string) (b : Batch) (s : State)
    (sg : HairstyleSuggestion) :
  batchSettled b = false →
  batchSuggestions b !! i = Some sg →
  fulfilled b !! i = Some None →
  let values := <[i := Some {| hairstyleName := name sg; imageUrl := url |}]> (fulfilled b) in
  settleIn (i, Ok url) (b, s) =
    match collect values with
    | Some images =>
        (mkBatch (batchSuggestions b) (batchFront b) values true,
         generateSelected_resume (Ok images) s)
    | None => (mkBatch (batchSuggestions b) (batchFront b) values false, s)
    end.
Proof.
  intros Hb Hsg Hv. unfold settleIn, settleRender. simpl.
  rewrite Hb, Hsg, Hv. by destruct (collect _).
Qed.

Lemma namedAfter_lookup (b : Batch) (i : nat) :
  namedAfter b → is_Some (fulfilled b !! i) → is_Some (batchSuggestions b !! i).
Proof.
  intros H%Forall2_length. rewrite !lookup_lt_is_Some. lia.
Qed.

Lemma namedAfter_insert (b : Batch) (i : nat) (sg : HairstyleSuggestion) (url : string)
    (settled : bool) :
  namedAfter b → batchSuggestions b !! i = Some sg →
  namedAfter (mkBatch (batchSuggestions b) (batchFront b)
                (<[i := Some {| hairstyleName := name sg; imageUrl := url |}]> (fulfilled b))
                settled).
Proof.
  intros H Hsg. unfold namedAfter in *. simpl.
  rewrite <- (list_insert_id (batchSuggestions b) i sg Hsg) at 1.
  by apply Forall2_insert.
Qed.

Lemma settle_all_ok (es : list (nat * Outcome string)) (b : Batch) (s : State) :
  batchSettled b = false → namedAfter b →
  NoDup es.*1 → (∀ i, i ∈ es.*1 → fulfilled b !! i = Some None) →
  Forall (λ e, isOk e.2 = true) es →
  0 < pending (fulfilled b) →
  length es ≤ pending (fulfilled b)
  ∧ (length es < pending (fulfilled b) → (settleAllIn es (b, s)).2 = s)
  ∧ (length es = pending (fulfilled b) →
     ∃ images, (settleAllIn es (b, s)).2 = generateSelected_resume (Ok images) s
               ∧ hairstyleName <$> images = name <$> batchSuggestions b).
Proof.
  revert b. induction es as [|[i o] es IH]; intros b Hb Hnamed Hnd Hslots Hok Hpos.
  - simpl. split_and!; [lia|done|lia].
  - apply Forall_cons in Hok as [Ho Hok]. destruct o as [url|err]; [|done].
    simpl in Hnd, Hslots. apply NoDup_cons in Hnd as [Hi Hnd].
    assert (fulfilled b !! i = Some None) as Hslot by (apply Hslots; left).
    destruct (namedAfter_lookup b i Hnamed) as [sg Hsg]; [by eexists|].
    unfold settleAllIn. simpl. rewrite (settleIn_ok i url b s sg Hb Hsg Hslot).
    pose proof (pending_insert (fulfilled b) i
                  {| hairstyleName := name sg; imageUrl := url |} Hslot) as Hpend.
    set (values := <[i := _]> (fulfilled b)) in *.
    assert (∀ j, j ∈ es.*1 → values !! j = Some None) as Hslots'.
    { intros j Hj. unfold values. rewrite list_lookup_insert_ne by (intros ->; done).
      apply Hslots. by right. }
    destruct (collect values) as [images|] eqn:Hcollect.
    + (* the last promise: nothing is left to settle *)
      assert (pending values = 0) as Hzero.
      { destruct (pending values) eqn:E; [done|].
        assert (collect values = None) by (apply collect_pending; lia). congruence. }
      assert (es = []) as ->.
      { destruct es as [|[j o] es]; [done|].
        specialize (Hslots' j (ltac:(left))). apply pending_lookup in Hslots'. lia. }
      simpl. split_and!; [lia|lia|]. intros _.
      exists images. split; [done|].
      apply (collect_names _ values); [|done].
      by apply (namedAfter_insert b i sg url true).
    + apply collect_pending in Hcollect.
      pose proof (namedAfter_insert b i sg url false Hnamed Hsg) as Hnamed'.
      fold values in Hnamed'.
      set (b' := mkBatch _ _ values false) in *.
      destruct (IH b' eq_refl Hnamed' Hnd Hslots' Hok Hcollect) as (Hle & Hlt & Heq).
      fold (settleAllIn es (b', s)).
      change (fulfilled b') with values in *.
      change (batchSuggestions b') with (batchSuggestions b) in *.
      simpl. split_and!; [lia| |].
      * intros H. apply Hlt. lia.
      * intros H. apply Heq. lia.
Qed.


(** [filterByIndex] picks the elements at the positions that satisfy
    the test, in their order. *)
Lemma filterByIndex_positions {A} (sel : list nat) (from : nat) (l : list A) :
  Forall2 (λ i x, ∃ j, i = from + j ∧ l !! j = Some x)
    (filter (λ i, i ∈ sel) (seq from (length l)))
    (filterByIndex (λ idx, bool_decide (idx ∈ sel)) from l).
Proof.
  revert from. induction l as [|x l IH]; intros from; simpl; [constructor|].
  assert (Forall2 (λ i y, ∃ j, i = from + j ∧ (x :: l) !! j = Some y)
            (filter (λ i, i ∈ sel) (seq (S from) (length l)))
            (filterByIndex (λ idx, bool_decide (idx ∈ sel)) (S from) l)) as Htail.
  { eapply Forall2_impl; [apply IH|].
    intros i y (j & -> & Hj). exists (S j). split; [lia|done]. }
  rewrite filter_cons. destruct (decide (from ∈ sel)) as [Hin|Hout].
  - rewrite bool_decide_eq_true_2 by done. constructor; [|done].
    exists 0. split; [lia|done].
  - by rewrite bool_decide_eq_false_2 by done.
Qed.

Lemma seq_sorted (from n : nat) : StronglySorted lt (seq from n).
Proof.
  revert from. induction n as [|n IH]; intros from; simpl; constructor; [apply IH|].
  apply Forall_forall. intros i Hi%elem_of_seq. lia.
Qed.

Lemma filter_sorted (P : nat → Prop) `{!∀ i, Decision (P i)} (l : list nat) :
  StronglySorted lt l → StronglySorted lt (filter P l).
Proof.
  induction 1 as [|x l Hl IH Hx]; [constructor|].
  rewrite filter_cons. destruct (decide (P x)); [|done].
  constructor; [done|]. apply Forall_forall. intros y [_ Hy]%list_elem_of_filter.
  rewrite Forall_forall in Hx. by apply Hx.
Qed.

(** The suggestions picked for a selection set are those at the
    selected positions, by increasing position. *)
Lemma selectedSuggestions_in_index_order (r : AnalysisResult) (sel : list nat) :
  NoDup sel → (∀ i, i ∈ sel → i < length (suggestions r)) →
  ∃ idxs, idxs ≡ₚ sel ∧ StronglySorted lt idxs
          ∧ Forall2 (λ i sg, suggestions r !! i = Some sg) idxs (selectedSuggestions r sel).
Proof.
  intros Hnd Hrange.
  exists (filter (λ i, i ∈ sel) (seq 0 (length (suggestions r)))). split_and!.
  - apply NoDup_Permutation; [apply NoDup_filter, NoDup_seq|done|].
    intros i. rewrite list_elem_of_filter, elem_of_seq. split; [by intros [? _]|].
    intros Hi. split; [done|]. specialize (Hrange i Hi). lia.
  - apply filter_sorted, seq_sorted.
  - eapply Forall2_impl; [apply filterByIndex_positions|].
    by intros i sg (j & -> & Hj).
Qed.

Lemma selectedSuggestions_length (r : AnalysisResult) (sel : list nat) :
  NoDup sel → (∀ i, i ∈ sel → i < length (suggestions r)) →
  length (selectedSuggestions r sel) = length sel.
Proof.
  intros Hnd Hrange.
  destruct (selectedSuggestions_in_index_order r sel Hnd Hrange) as (idxs & Hp & _ & H2).
  apply Forall2_length in H2. rewrite <- H2. by rewrite Hp.
Qed.

Lemma generateSelected_settled_batch (k : nat) (e : nat * Outcome string)
    (w : World) (b : Batch) :
  batches w !! k = Some b →
  state (generateSelected_settled k e w) = (settleIn e (b, state w)).2
  ∧ batches (generateSelected_settled k e w) !! k = Some (settleIn e (b, state w)).1.
Proof.
  intros Hb. unfold generateSelected_settled. rewrite Hb. simpl. split; [done|].
  apply list_lookup_insert_eq. by apply lookup_lt_Some in Hb.
Qed.

Lemma settleRenders_batch (k : nat) (es : list (nat * Outcome string)) (w : World) (b : Batch) :
  batches w !! k = Some b →
  state (settleRenders k es w) = (settleAllIn es (b, state w)).2
  ∧ batches (settleRenders k es w) !! k = Some (settleAllIn es (b, state w)).1.
Proof.
  revert w b. induction es as [|e es IH]; intros w b Hb; [done|].
  destruct (generateSelected_settled_batch k e w b Hb) as (Hs & Hb').
  change (settleRenders k (e :: es) w)
    with (settleRenders k es (generateSelected_settled k e w)).
  change (settleAllIn (e :: es) (b, state w))
    with (settleAllIn es (settleIn e (b, state w))).
  destruct (IH _ _ Hb') as (Hs' & Hbs'). rewrite Hs in Hs', Hbs'.
  by destruct (settleIn e (b, state w)).
Qed.



(** The render calls of the flow are [generateHairstyleImage] calls:
    against an endpoint that renders, the two calls of the sample
    selection lead to Results; without a credential both fail before
    any request and the flow ends in Error with the configuration
    message. *)
Example generateSelected_through_the_service :
  let w1 := generateSelected Samples.selectionWorld in
  let calls env remote := foldr (λ b _, callRenders env remote b) [] (batches w1) in
  (λ w, (appState (state w), generatedImages (state w)))
    (settleRenders 0 (calls Samples.keyEnv (Samples.rendering "SEVMTE8=")) w1)
  = (RESULTS,
     [{| hairstyleName := "Pixie"; imageUrl := "data:image/png;base64,SEVMTE8=" |};
      {| hairstyleName := "Shag"; imageUrl := "data:image/png;base64,SEVMTE8=" |}])
  ∧ (λ w, (appState (state w), errorMsg (state w)))
      (settleRenders 0 (calls Samples.bareEnv (Samples.rendering "SEVMTE8=")) w1)
    = (ERROR, Some GeminiService.apiKeyMissing).
Proof. split; vm_compute; reflexivity. Qed.

(** The scenario of the design description: three captures, an
    analysis with five suggestions, the styles 2 and 0 picked, two
    render calls that both succeed. *)
Example scenario_two_styles :
  state <$> run Js.lowerCaseAscii (Samples.pickTwo ++
                 [ClickGenerate;
                  RenderSettled 0 1 (Ok "data:image/png;base64,SHAG"%string);
                  RenderSettled 0 0 (Ok "data:image/png;base64,PIXIE"%string)])
              initialWorld
  = Some (mkState RESULTS Samples.threeImages 2 (Some Samples.ovalResult) [2; 0]
            [{| hairstyleName := "Pixie"; imageUrl := "data:image/png;base64,PIXIE" |};
             {| hairstyleName := "Shag"; imageUrl := "data:image/png;base64,SHAG" |}]
            None).
Proof. vm_compute. reflexivity. Qed.

Example selectionWorld_reached :
  run Js.lowerCaseAscii Samples.pickTwo initialWorld
  = Some Samples.selectionWorld.
Proof. vm_compute. reflexivity. Qed.

End Generation.

(** ** Calls that settle after a reset *)

Section Stale.
Import Js App.

(** C3, as the code has it. Nothing checks which attempt a settling
    call belongs to: in every state of the flow, whatever happened
    since the call was made, a fulfilled analysis stores its result,
    empties the selection and shows Selection, a fulfilled generation
    stores its images and shows Results, and a failed one of either
    stores its message and shows Error. What keeps the user from
    resetting under a pending call is the loading screen: in Analyzing
    and in Generating no click is offered, reset included. *)
Theorem settled_calls_write_unconditionally
    (w : World) (analysis : AnalysisResult) (images : list GeneratedImage)
    (err : JsError) (e : Event) :
  (appState (state (performAnalysis_settled (Ok analysis) w)) = SELECTION
   ∧ analysisResult (state (performAnalysis_settled (Ok analysis) w)) = Some analysis
   ∧ selectedIndices (state (performAnalysis_settled (Ok analysis) w)) = [])
  ∧ (appState (state (performAnalysis_settled (Throw err) w)) = ERROR
     ∧ errorMsg (state (performAnalysis_settled (Throw err) w))
       = Some (orElse (message err) "Failed to analyze face."))
  ∧ (appState (generateSelected_resume (Ok images) (state w)) = RESULTS
     ∧ generatedImages (generateSelected_resume (Ok images) (state w)) = images)
  ∧ (appState (generateSelected_resume (Throw err) (state w)) = ERROR
     ∧ errorMsg (generateSelected_resume (Throw err) (state w))
       = Some (orElse (message err) "Failed to generate images."))
  ∧ (isClick e = true →
     appState (state w) = ANALYZING ∨ appState (state w) = GENERATING →
     offered e w = false).
Proof.
  split_and!; try reflexivity.
  intros Hclick Hst. unfold offered.
  destruct e; try discriminate Hclick;
    destruct Hst as [-> | ->]; reflexivity.
Qed.

Lemma settled_calls_write_unconditionally_witness :
  offered ClickReset Samples.analyzingWorld = false
  ∧ appState (state (performAnalysis_settled (Ok Samples.ovalResult)
                       (resetApp Samples.analyzingWorld))) = SELECTION.
Proof.
  pose proof (settled_calls_write_unconditionally Samples.analyzingWorld
                Samples.ovalResult [] (Error "x") ClickReset) as (_ & _ & _ & _ & H).
  pose proof (settled_calls_write_unconditionally (resetApp Samples.analyzingWorld)
                Samples.ovalResult [] (Error "x") ClickReset) as ((H' & _) & _).
  split; [|exact H'].
  apply H; [reflexivity|]. left. vm_compute. reflexivity.
Defined.

(** C3 as stated fails: when [resetApp] runs while an analysis call is
    in flight and the call fulfils afterwards, its result is not
    ignored; the flow, back in Idle with nothing stored, is moved to
    Selection with the stale result. *)
Lemma stale_analysis_is_not_ignored :
  let fresh := resetApp Samples.analyzingWorld in
  let later := performAnalysis_settled (Ok Samples.ovalResult) fresh in
  analysesInFlight Samples.analyzingWorld = 1
  ∧ appState (state fresh) = IDLE
  ∧ analysisResult (state fresh) = None
  ∧ appState (state later) = SELECTION
  ∧ analysisResult (state later) = Some Samples.ovalResult
  ∧ state later ≠ state fresh.
Proof. vm_compute. split_and!; try reflexivity. discriminate. Qed.

(** The same for a generation that fulfils after a reset. *)
Example stale_generation_is_not_ignored :
  let fresh := resetApp (generateSelected Samples.selectionWorld) in
  let later := settleRenders 0 Samples.bothSucceed fresh in
  appState (state fresh) = IDLE
  ∧ appState (state later) = RESULTS
  ∧ length (generatedImages (state later)) = 2.
Proof. vm_compute. split_and!; reflexivity. Qed.

(** The loading screen is not the whole protection either: when the
    camera prompt is still open while the photos are taken and the
    analysis is started, its refusal shows the Error screen, whose
    Try Again is a reset with the analysis still in flight. *)
Example stale_analysis_reachable :
  (λ w, (appState (state w), capturedImages (state w))) <$>
    run Js.lowerCaseAscii [ClickStart;
         ClickCapture (Some "data:,"%string);
         ClickCapture (Some "data:,"%string);
         ClickCapture (Some "data:,"%string);
         ClickAnalyze; CameraDenied; ClickReset;
         AnalysisSettled (Ok Samples.ovalResult)]
        initialWorld
  = Some (SELECTION, []).
Proof. vm_compute. reflexivity. Qed.

End Stale.

(** * Further properties of the code *)

(** ** The remote clients: credential, requests, answers *)

Section ServiceExtra.
Import Js Json GeminiService.

Lemma truthy_Some (o : option string) :
  truthy o = true → ∃ k, o = Some k ∧ k ≠ EmptyString.
Proof. destruct o as [[|c k]|]; [done| |done]. intros _. by eexists. Qed.

(** X1. [getAiClient] takes [process.env.API_KEY] when it is a non-empty
    string, otherwise [import.meta.env.VITE_API_KEY] when that is one,
    and otherwise fails with the configuration error; the fallback
    assignment after the [try] never changes the outcome. *)
Theorem getAiClient_precedence (env : Environment) :
  let p := mjoin (process_env_API_KEY env) in
  let v := mjoin (import_meta_env_VITE_API_KEY env) in
  getAiClient env =
    if truthy p then Ok (default EmptyString p)
    else if truthy v then Ok (default EmptyString v)
    else Throw (Error apiKeyMissing).
Proof.
  unfold getAiClient. cbv zeta.
  destruct (mjoin (process_env_API_KEY env)) as [[|c k]|];
    destruct (mjoin (import_meta_env_VITE_API_KEY env)) as [[|c' k']|];
    simpl; try done; by destruct (bool_decide _).
Qed.

Lemma stripPrefix_app (p r : string) : stripPrefix p (p ++ r)%string = Some r.
Proof.
  induction p as [|a p IH]; [reflexivity|].
  change (String a p +:+ r)%string with (String a (p +:+ r)).
  cbn [stripPrefix]. by case_decide.
Qed.

Lemma stripPrefix_Some (p s r : string) :
  stripPrefix p s = Some r → s = (p ++ r)%string.
Proof.
  revert s. induction p as [|a p IH]; intros s.
  - by intros [= ->].
  - change (String a p +:+ r)%string with (String a (p +:+ r)). cbn [stripPrefix].
    destruct s as [|b s]; [done|]. destruct (decide (a = b)) as [->|]; [|done].
    intros H. by rewrite (IH s H).
Qed.

Lemma stripDataUrl_png (raw : string) :
  stripDataUrl ("data:image/png;base64," ++ raw)%string = raw.
Proof. unfold stripDataUrl. by rewrite stripPrefix_app. Qed.

(** X2. The data-URL cleaner removes one leading
    [data:image/png;base64,], [data:image/jpeg;base64,] or
    [data:image/jpg;base64,] and nothing else: a string made of such a
    prefix and a payload is cleaned to the payload, and every string is
    one of these prefixes (or none) followed by its cleaned form. *)
Theorem stripDataUrl_strips_one_prefix (raw img : string) :
  stripDataUrl ("data:image/png;base64," ++ raw)%string = raw
  ∧ stripDataUrl ("data:image/jpeg;base64," ++ raw)%string = raw
  ∧ stripDataUrl ("data:image/jpg;base64," ++ raw)%string = raw
  ∧ ∃ p, p ∈ [EmptyString; "data:image/png;base64,"%string;
              "data:image/jpeg;base64,"%string; "data:image/jpg;base64,"%string]
         ∧ img = (p ++ stripDataUrl img)%string.
Proof.
  split_and!.
  - unfold stripDataUrl. by rewrite stripPrefix_app.
  - unfold stripDataUrl. rewrite (stripPrefix_app "data:image/jpeg;base64,"). reflexivity.
  - unfold stripDataUrl. rewrite (stripPrefix_app "data:image/jpg;base64,"). reflexivity.
  - unfold stripDataUrl.
    destruct (stripPrefix "data:image/png;base64," img) as [r|] eqn:H1.
    { eexists. split; [|by apply stripPrefix_Some]. repeat constructor. }
    destruct (stripPrefix "data:image/jpeg;base64," img) as [r|] eqn:H2.
    { eexists. split; [|by apply stripPrefix_Some]. repeat constructor. }
    destruct (stripPrefix "data:image/jpg;base64," img) as [r|] eqn:H3.
    { eexists. split; [|by apply stripPrefix_Some]. repeat constructor. }
    exists EmptyString. split; [constructor|done].
Qed.

Lemma firstInlineImage_None (ps : list ResponsePart) :
  firstInlineImage ps = None ↔ Forall (λ q, Flow.imagePayload q = None) ps.
Proof.
  induction ps as [|p ps IH]; simpl.
  - split; [constructor|done].
  - rewrite Forall_cons, <- IH. unfold Flow.imagePayload.
    destruct (inlineData p) as [b|]; [|by split; [|intros [_ ?]]].
    destruct (truthy (data b)) eqn:Ht.
    + split; [done|]. intros [H _]. apply truthy_Some in Ht as (k & Hk & _). congruence.
    + by split; [|intros [_ ?]].
Qed.

Lemma firstInlineImage_first (pre post : list ResponsePart) (p : ResponsePart) (raw : string) :
  Forall (λ q, Flow.imagePayload q = None) pre →
  Flow.imagePayload p = Some raw →
  firstInlineImage (pre ++ p :: post) = Some ("data:image/png;base64," ++ raw)%string.
Proof.
  intros Hpre Hp. induction Hpre as [|q pre Hq _ IH]; simpl.
  - unfold Flow.imagePayload in Hp. destruct (inlineData p) as [b|]; [|done].
    destruct (truthy (data b)); [|done]. by rewrite Hp.
  - unfold Flow.imagePayload in Hq. destruct (inlineData q) as [b|]; [|done].
    destruct (truthy (data b)) eqn:Ht; [|done].
    apply truthy_Some in Ht as (k & Hk & _). congruence.
Qed.

Lemma imagePayload_nonempty (p : ResponsePart) (raw : string) :
  Flow.imagePayload p = Some raw → raw ≠ EmptyString.
Proof.
  unfold Flow.imagePayload. destruct (inlineData p) as [b|]; [|done].
  destruct (truthy (data b)) eqn:Ht; [|done].
  apply truthy_Some in Ht as (k & Hk & Hne). congruence.
Qed.

(** X3. With a credential and a base image, what [generateHairstyleImage]
    makes of a response: without parts in the first candidate (no
    candidate, no content, no parts) it fails with "No content in
    response"; with parts none of which carries a non-empty inline
    payload (the empty list included) it fails with "No image generated
    in response."; otherwise it returns the first such payload as a
    [data:image/png;base64,] URL, which the data-URL cleaner maps back
    to the payload. Later parts and later candidates play no role. *)
Theorem generateHairstyleImage_outcomes
    (env : Environment) (response : Response) (img style descr key : string) :
  getAiClient env = Ok key →
  let outcome := (generateHairstyleImage env (λ _, Ok response) (Some img) style descr).1 in
  (firstCandidateParts response = None →
   outcome = Throw (Error "No content in response"))
  ∧ (∀ ps, firstCandidateParts response = Some ps →
           Forall (λ q, Flow.imagePayload q = None) ps →
           outcome = Throw (Error "No image generated in response."))
  ∧ (∀ pre p post raw,
       firstCandidateParts response = Some (pre ++ p :: post) →
       Forall (λ q, Flow.imagePayload q = None) pre →
       Flow.imagePayload p = Some raw →
       outcome = Ok ("data:image/png;base64," ++ raw)%string
       ∧ raw ≠ EmptyString
       ∧ stripDataUrl ("data:image/png;base64," ++ raw)%string = raw).
Proof.
  intros Hk. unfold generateHairstyleImage. rewrite Hk. simpl. split_and!.
  - by intros ->.
  - intros ps -> Hnone. apply firstInlineImage_None in Hnone. by rewrite Hnone.
  - intros pre p post raw -> Hpre Hp.
    rewrite (firstInlineImage_first pre post p raw Hpre Hp). split_and!.
    + done.
    + by apply (imagePayload_nonempty p).
    + apply stripDataUrl_png.
Qed.

Lemma generateHairstyleImage_outcomes_witness :
  (generateHairstyleImage Samples.keyEnv (λ _, Ok Samples.imageResponse)
     (Some "data:image/jpeg;base64,AAAA"%string) "Bob" "Chin length").1
  = Ok "data:image/png;base64,SEVMTE8="%string.
Proof.
  destruct (generateHairstyleImage_outcomes Samples.keyEnv Samples.imageResponse
              "data:image/jpeg;base64,AAAA" "Bob" "Chin length" "k-123" eq_refl)
    as (_ & _ & H).
  destruct (H [{| inlineData := None |}]
              {| inlineData := Some {| data := Some "SEVMTE8="%string |} |} []
              "SEVMTE8="%string eq_refl
              ltac:(repeat constructor) eq_refl) as (Hout & _).
  exact Hout.
Defined.

(** X4. With a credential, [analyzeFace] sends exactly one request,
    whatever comes of it: to the analysis model, with the key found,
    one [image/jpeg] inline part per image in the order given (each
    with its data-URL prefix removed) followed by the prompt; and
    [generateHairstyleImage] sends exactly one request to the
    generation model with the cleaned base image and the prompt, or
    none at all when the base image is [undefined]. An error of the
    remote call is rethrown as it is. *)
Theorem service_sends_one_request
    (parse : string → Outcome json) (env : Environment) (remote : Remote)
    (images : list string) (front : option string) (style descr key : string) :
  getAiClient env = Ok key →
  (∃ req, (analyzeFace parse env remote images).2 = [req]
          ∧ apiKey req = key ∧ model req = ANALYSIS_MODEL
          ∧ length (parts req) = S (length images)
          ∧ (∀ i img, images !! i = Some img →
                      parts req !! i = Some (InlineData "image/jpeg" (stripDataUrl img)))
          ∧ last (parts req) = Some (TextPart analysisPrompt)
          ∧ (∀ e, remote req = Throw e →
                  (analyzeFace parse env remote images).1 = Throw e))
  ∧ match front with
    | Some img =>
        ∃ req, (generateHairstyleImage env remote front style descr).2 = [req]
               ∧ apiKey req = key ∧ model req = GENERATION_MODEL
               ∧ parts req = [InlineData "image/jpeg" (stripDataUrl img);
                              TextPart (generationPrompt style descr)]
               ∧ (∀ e, remote req = Throw e →
                       (generateHairstyleImage env remote front style descr).1 = Throw e)
    | None => (generateHairstyleImage env remote front style descr).2 = []
              ∧ isOk (generateHairstyleImage env remote front style descr).1 = false
    end.
Proof.
  intros Hk. split.
  - unfold analyzeFace. rewrite Hk.
    set (req := {| apiKey := key; model := ANALYSIS_MODEL; parts := _; config := _ |}).
    exists req. split_and!.
    + destruct (remote req) as [response|e]; [|done]. by destruct (negb _).
    + done.
    + done.
    + simpl. rewrite length_app, length_fmap. simpl. lia.
    + intros i img Hi. simpl. rewrite lookup_app_l.
      * by rewrite list_lookup_fmap, Hi.
      * rewrite length_fmap. by apply lookup_lt_Some in Hi.
    + simpl. by rewrite last_snoc.
    + intros e He. by rewrite He.
  - destruct front as [img|].
    + unfold generateHairstyleImage. rewrite Hk.
      set (req := {| apiKey := key; model := GENERATION_MODEL; parts := _; config := _ |}).
      exists req. split_and!; try done.
      * destruct (remote req) as [response|e]; [|done].
        destruct (firstCandidateParts response) as [ps|]; [|done].
        by destruct (firstInlineImage ps).
      * intros e He. by rewrite He.
    + unfold generateHairstyleImage. by rewrite Hk.
Qed.

Lemma service_sends_one_request_witness :
  ∃ req, (analyzeFace JSON_parse Samples.keyEnv (Samples.answering "{}")
            Samples.threeImages).2 = [req]
         ∧ length (parts req) = 4.
Proof.
  destruct (service_sends_one_request JSON_parse Samples.keyEnv (Samples.answering "{}")
              Samples.threeImages None "Bob" "Chin length" "k-123" eq_refl)
    as ((req & Hreq & _ & _ & Hlen & _) & _).
  exists req. split; [exact Hreq|exact Hlen].
Defined.

End ServiceExtra.

(** ** The selection set, element by element *)

(** X5. [toggleSelection index] decides the membership of [index]
    alone: afterwards [index] is selected exactly when it was not
    before and fewer than two indices were; the membership of every
    other index is as before. *)
Theorem toggleSelection_membership (index j : nat) (sel : list nat) :
  (index ∈ Selection.toggleSelection index sel ↔ (index ∉ sel) ∧ length sel < 2)
  ∧ (j ≠ index → (j ∈ Selection.toggleSelection index sel ↔ j ∈ sel)).
Proof.
  unfold Selection.toggleSelection.
  destruct (decide (index ∈ sel)) as [Hin|Hout].
  - split.
    + split; [by intros H%filter_ne_absent|by intros [? _]].
    + intros Hne. rewrite list_elem_of_filter. split; [by intros [_ ?]|done].
  - destruct (decide (2 ≤ length sel)) as [Hfull|Hroom].
    + split; [|done]. split; [done|]. intros [_ ?]. lia.
    + split.
      * split; [intros _; split; [done|lia]|].
        intros _. apply elem_of_app. right. by apply list_elem_of_singleton.
      * intros Hne. rewrite elem_of_app, list_elem_of_singleton. split; [|by left].
        by intros [?|?].
Qed.

Lemma toggleSelection_membership_witness :
  0 ∈ Selection.toggleSelection 1 [0; 1] ↔ 0 ∈ [0; 1].
Proof.
  apply (proj2 (toggleSelection_membership 1 0 [0; 1])). discriminate.
Defined.

(** ** What holds along every run of the flow *)

Section FlowFacts.
Import Js App Flow.

Lemma stopCamera_batches (w : World) : batches (stopCamera w) = batches w.
Proof. unfold stopCamera. by destruct (streamRef w). Qed.


Lemma settleIn_shape (e : nat * Outcome string) (b : Batch) (s : State) :
  ((settleIn e (b, s)).2 = s
   ∨ (∃ images, (settleIn e (b, s)).2 = generateSelected_resume (Ok images) s)
   ∨ (∃ err, (settleIn e (b, s)).2 = generateSelected_resume (Throw err) s))
  ∧ batchSuggestions (settleIn e (b, s)).1 = batchSuggestions b
  ∧ length (fulfilled (settleIn e (b, s)).1) = length (fulfilled b).
Proof.
  unfold settleIn, settleRender. simpl.
  destruct (batchSettled b); [by auto|].
  destruct (batchSuggestions b !! e.1) as [sg|]; [|by auto].
  destruct (fulfilled b !! e.1) as [[g|]|]; [by auto| |by auto].
  destruct e.2 as [url|err]; simpl.
  - destruct (collect _); simpl; rewrite length_insert; eauto 6.
  - eauto 6.
Qed.

Lemma orElse_nonempty (a b : string) : b ≠ EmptyString → orElse a b ≠ EmptyString.
Proof. intros Hb. unfold orElse. by destruct a. Qed.

Ltac early_no H := destruct H as [H|[H|H]]; discriminate H.

Lemma handle_earlyScreensClean (toLowerCase : string → string) (e : Event) (w : World) :
  earlyScreensClean w → offered e w = true → earlyScreensClean (handle toLowerCase e w).
Proof.
  intros Hclean Hoff. unfold earlyScreensClean in *.
  destruct e; unfold offered in Hoff; unfold handle.
  - (* ClickStart *)
    apply bool_decide_eq_true in Hoff. intros _. apply Hclean. by left.
  - (* ClickCapture *)
    apply bool_decide_eq_true in Hoff.
    assert (earlyScreen (appState (state w))) as He by (right; by left).
    specialize (Hclean He).
    unfold capturePhoto, cameraMounted. rewrite bool_decide_eq_true_2 by done.
    destruct frame as [dataUrl|]; [|done].
    destruct (decide _); simpl; rewrite ?stopCamera_state; done.
  - (* ClickRetake *)
    apply bool_decide_eq_true in Hoff.
    assert (earlyScreen (appState (state w))) as He by (right; by right).
    destruct (Hclean He) as (_ & Hsel & _). intros _. simpl. by split_and!.
  - (* ClickAnalyze *)
    unfold performAnalysis. destruct (decide _); [done|].
    simpl. intros He. early_no He.
  - (* ClickStyle *)
    apply andb_prop in Hoff as [Hst%bool_decide_eq_true _].
    destruct (isDisabled _ _); simpl; intros He; rewrite Hst in He; early_no He.
  - (* ClickGenerate *)
    apply andb_prop in Hoff as [[Hst%bool_decide_eq_true _]%andb_prop _].
    unfold generateSelected.
    destruct (analysisResult (state w)) as [r|]; [|intros He; rewrite Hst in He; early_no He].
    destruct (decide _); [intros He; rewrite Hst in He; early_no He|].
    destruct (selectedSuggestions _ _); simpl; intros He; early_no He.
  - (* ClickDownload *)
    apply andb_prop in Hoff as [[Hst%bool_decide_eq_true _]%andb_prop _].
    destruct (_ !! _); simpl; intros He; rewrite Hst in He; early_no He.
  - (* ClickReset *)
    unfold resetApp. rewrite stopCamera_state. simpl. by intros _.
  - (* CameraGranted *)
    simpl. exact Hclean.
  - (* CameraDenied *)
    simpl. intros He. early_no He.
  - (* AnalysisSettled *)
    unfold performAnalysis_settled. destruct o; simpl; intros He; early_no He.
  - (* RenderSettled *)
    unfold generateSelected_settled.
    destruct (batches w !! k) as [b|]; [|done].
    destruct (settleIn_shape (i, o) b (state w)) as ([Hs|[[images Hs]|[err Hs]]] & _);
      simpl; rewrite Hs; [done| |]; simpl; intros He; early_no He.
Qed.

Lemma toggleSelection_elem (index x : nat) (prev : list nat) :
  x ∈ Selection.toggleSelection index prev → x ∈ prev ∨ x = index.
Proof.
  unfold Selection.toggleSelection.
  destruct (decide (index ∈ prev)).
  - intros [_ Hx]%list_elem_of_filter. by left.
  - destruct (decide (2 ≤ length prev)); [by left|].
    intros [Hx|Hx%list_elem_of_singleton]%elem_of_app; [by left|by right].
Qed.

Lemma handle_selectionInvariant (toLowerCase : string → string) (e : Event) (w : World) :
  selectionInvariant w → earlyScreensClean w → offered e w = true →
  selectionInvariant (handle toLowerCase e w).
Proof.
  intros (Hlen & Hnd & Hrange) Hclean Hoff. unfold selectionInvariant.
  destruct e; unfold offered in Hoff; unfold handle.
  - (* ClickStart *) simpl. by split_and!.
  - (* ClickCapture *)
    unfold capturePhoto. destruct (cameraMounted w); [|by split_and!].
    destruct frame as [dataUrl|]; [|by split_and!].
    destruct (decide _); simpl; rewrite ?stopCamera_state; by split_and!.
  - (* ClickRetake *)
    apply bool_decide_eq_true in Hoff.
    destruct Hclean as (_ & Hsel & _); [right; by right|].
    simpl. rewrite Hsel. split_and!; [simpl; lia|constructor|].
    intros i Hi. by apply elem_of_nil in Hi.
  - (* ClickAnalyze *)
    unfold performAnalysis. destruct (decide _); simpl; by split_and!.
  - (* ClickStyle *)
    apply andb_prop in Hoff as [_ Hidx].
    destruct (isDisabled _ _); [by split_and!|].
    unfold toggleSelection. simpl. split_and!.
    + by apply toggleSelection_length.
    + by apply toggleSelection_NoDup.
    + intros i [Hi| ->]%toggleSelection_elem; [by apply Hrange|].
      destruct (analysisResult (state w)) as [r|]; [|done].
      apply bool_decide_eq_true in Hidx. by exists r.
  - (* ClickGenerate *)
    apply andb_prop in Hoff as [[_ Hhas%bool_decide_eq_true]%andb_prop _].
    destruct Hhas as [r Hr].
    unfold generateSelected. rewrite Hr.
    destruct (decide _); [by split_and!|].
    destruct (selectedSuggestions _ _); simpl; by split_and!.
  - (* ClickDownload *)
    destruct (_ !! _); simpl; by split_and!.
  - (* ClickReset *)
    unfold resetApp. rewrite stopCamera_state. simpl.
    split_and!; [lia|constructor|]. intros i Hi. by apply elem_of_nil in Hi.
  - (* CameraGranted *) simpl. by split_and!.
  - (* CameraDenied *) simpl. by split_and!.
  - (* AnalysisSettled *)
    unfold performAnalysis_settled. destruct o as [analysis|err]; simpl.
    + split_and!; [lia|constructor|]. intros i Hi. by apply elem_of_nil in Hi.
    + by split_and!.
  - (* RenderSettled *)
    unfold generateSelected_settled.
    destruct (batches w !! k) as [b|]; [|by split_and!].
    destruct (settleIn_shape (i, o) b (state w)) as ([Hs|[[images Hs]|[err Hs]]] & _);
      simpl; rewrite Hs; simpl; by split_and!.
Qed.

Lemma handle_batchInvariant (toLowerCase : string → string) (e : Event) (w : World) :
  batchInvariant w → selectionInvariant w → offered e w = true →
  batchInvariant (handle toLowerCase e w).
Proof.
  intros Hb (Hlen & Hnd & Hrange) Hoff. unfold batchInvariant in *.
  destruct e; unfold offered in Hoff; unfold handle;
    try (simpl; exact Hb).
  - (* ClickCapture *)
    unfold capturePhoto. destruct (cameraMounted w); [|done].
    destruct frame as [dataUrl|]; [|done].
    destruct (decide _); simpl; rewrite ?stopCamera_batches; done.
  - (* ClickAnalyze *)
    unfold performAnalysis. by destruct (decide _).
  - (* ClickStyle *)
    by destruct (isDisabled _ _).
  - (* ClickGenerate *)
    apply andb_prop in Hoff as [_ [Hpos%bool_decide_eq_true _]%andb_prop].
    unfold generateSelected.
    destruct (analysisResult (state w)) as [r|] eqn:Hr; [|done].
    destruct (decide _); [done|].
    assert (length (selectedSuggestions r (selectedIndices (state w)))
            = length (selectedIndices (state w))) as Hpicked.
    { apply selectedSuggestions_length; [done|].
      intros i Hi. destruct (Hrange i Hi) as (r' & Hr' & Hlt). congruence. }
    destruct (selectedSuggestions _ _) as [|sg rest] eqn:Hp; [simpl in Hpicked; lia|].
    simpl. apply Forall_app. split; [done|]. constructor; [|constructor]. simpl.
    rewrite length_replicate. simpl in Hpicked. lia.
  - (* ClickDownload *)
    by destruct (_ !! _).
  - (* ClickReset *)
    unfold resetApp. by rewrite stopCamera_batches.
  - (* RenderSettled *)
    unfold generateSelected_settled.
    destruct (batches w !! k) as [b|] eqn:Hk; [|done].
    destruct (settleIn_shape (i, o) b (state w)) as (_ & Hsg & Hful).
    simpl. rewrite Forall_forall in Hb.
    pose proof (Hb b (list_elem_of_lookup_2 _ _ _ Hk)) as Hbk.
    apply Forall_insert; [by apply Forall_forall|]. by rewrite Hsg, Hful.
Qed.

Lemma handle_cameraInvariant (toLowerCase : string → string) (e : Event) (w : World) :
  cameraInvariant w → offered e w = true → cameraInvariant (handle toLowerCase e w).
Proof.
  intros (Hle & Hcam) Hoff. unfold cameraInvariant.
  destruct e; unfold offered in Hoff; unfold handle.
  - (* ClickStart *) simpl. split; [lia|]. intros _. split; [done|lia].
  - (* ClickCapture *)
    apply bool_decide_eq_true in Hoff. destruct (Hcam Hoff) as (Hstep & Hlt).
    unfold capturePhoto, cameraMounted. rewrite bool_decide_eq_true_2 by done.
    destruct frame as [dataUrl|]; [|by split].
    destruct (decide _) as [Hthree|Hnot]; simpl; rewrite ?stopCamera_state; simpl;
      rewrite length_app in *; simpl in *.
    + split; [lia|done].
    + split; [lia|]. intros _. lia.
  - (* ClickRetake *) simpl. split; [lia|]. intros _. split; [done|lia].
  - (* ClickAnalyze *)
    unfold performAnalysis. destruct (decide _); [by split|].
    simpl. by split.
  - (* ClickStyle *)
    destruct (isDisabled _ _); by split.
  - (* ClickGenerate *)
    apply andb_prop in Hoff as [[Hst%bool_decide_eq_true _]%andb_prop _].
    unfold generateSelected.
    destruct (analysisResult (state w)) as [r|]; [|by split].
    destruct (decide _); [by split|].
    destruct (selectedSuggestions _ _); simpl; by split.
  - (* ClickDownload *)
    destruct (_ !! _); by split.
  - (* ClickReset *)
    unfold resetApp. rewrite stopCamera_state. simpl. split; [lia|done].
  - (* CameraGranted *) by split.
  - (* CameraDenied *) simpl. by split.
  - (* AnalysisSettled *)
    unfold performAnalysis_settled. destruct o; simpl; by split.
  - (* RenderSettled *)
    unfold generateSelected_settled.
    destruct (batches w !! k) as [b|]; [|by split].
    destruct (settleIn_shape (i, o) b (state w)) as ([Hs|[[images Hs]|[err Hs]]] & _);
      simpl; rewrite Hs; simpl; by split.
Qed.

Lemma handle_errorInvariant (toLowerCase : string → string) (e : Event) (w : World) :
  errorInvariant w → offered e w = true → errorInvariant (handle toLowerCase e w).
Proof.
  intros Herr Hoff. unfold errorInvariant in *.
  assert (∀ m : string, m ≠ EmptyString →
            ∃ m', Some m = Some m' ∧ m' ≠ EmptyString) as Hmsg by (intros m ?; by exists m).
  destruct e; unfold offered in Hoff; unfold handle.
  - (* ClickStart *) simpl. intros H. discriminate H.
  - (* ClickCapture *)
    apply bool_decide_eq_true in Hoff.
    unfold capturePhoto, cameraMounted. rewrite bool_decide_eq_true_2 by done.
    destruct frame as [dataUrl|]; [|exact Herr].
    destruct (decide _); simpl; rewrite ?stopCamera_state; simpl.
    + intros H. discriminate H.
    + intros H. congruence.
  - (* ClickRetake *) simpl. intros H. discriminate H.
  - (* ClickAnalyze *)
    unfold performAnalysis. destruct (decide _); [exact Herr|].
    simpl. intros H. discriminate H.
  - (* ClickStyle *)
    destruct (isDisabled _ _); [exact Herr|]. simpl. exact Herr.
  - (* ClickGenerate *)
    unfold generateSelected.
    destruct (analysisResult (state w)) as [r|]; [|exact Herr].
    destruct (decide _); [exact Herr|].
    destruct (selectedSuggestions _ _); simpl; intros H; discriminate H.
  - (* ClickDownload *)
    destruct (_ !! _); [|exact Herr]. simpl. exact Herr.
  - (* ClickReset *)
    unfold resetApp. rewrite stopCamera_state. simpl. intros H. discriminate H.
  - (* CameraGranted *) simpl. exact Herr.
  - (* CameraDenied *) simpl. intros _. by apply Hmsg.
  - (* AnalysisSettled *)
    unfold performAnalysis_settled. destruct o as [analysis|err]; simpl.
    + intros H. discriminate H.
    + intros _. by apply Hmsg, orElse_nonempty.
  - (* RenderSettled *)
    unfold generateSelected_settled.
    destruct (batches w !! k) as [b|]; [|exact Herr].
    destruct (settleIn_shape (i, o) b (state w)) as ([Hs|[[images Hs]|[err Hs]]] & _);
      simpl; rewrite Hs; simpl.
    + exact Herr.
    + intros H. discriminate H.
    + intros _. by apply Hmsg, orElse_nonempty.
Qed.

Lemma run_flowInvariant (toLowerCase : string → string) (es : list Event) (w w' : World) :
  flowInvariant w → run toLowerCase es w = Some w' → flowInvariant w'.
Proof.
  revert w. induction es as [|e es IH]; intros w Hinv Hrun; simpl in Hrun.
  - by injection Hrun as <-.
  - unfold step in Hrun. destruct (offered e w) eqn:Hoff; [|done].
    simpl in Hrun. eapply IH; [|exact Hrun].
    destruct Hinv as (Hclean & Hsel & Hb & Hcam & Herr). split_and!.
    + by apply handle_earlyScreensClean.
    + by apply handle_selectionInvariant.
    + by apply handle_batchInvariant.
    + by apply handle_cameraInvariant.
    + by apply handle_errorInvariant.
Qed.

Lemma initialWorld_flowInvariant : flowInvariant initialWorld.
Proof.
  split_and!.
  - by intros _.
  - split_and!; [simpl; lia|constructor|]. intros i Hi. by apply elem_of_nil in Hi.
  - constructor.
  - split; [simpl; lia|]. intros H. discriminate H.
  - intros H. discriminate H.
Qed.



(** X6. Along every run of the flow, the selection holds at most two
    indices, without repetition, and each of them is a position of the
    stored analysis result. *)
Theorem selection_along_runs (toLowerCase : string → string) (es : list Event) (w : World) :
  run toLowerCase es initialWorld = Some w →
  length (selectedIndices (state w)) ≤ 2
  ∧ NoDup (selectedIndices (state w))
  ∧ ∀ i, i ∈ selectedIndices (state w) →
         ∃ r, analysisResult (state w) = Some r ∧ i < length (suggestions r).
Proof.
  intros Hrun.
  destruct (run_flowInvariant toLowerCase es _ _ initialWorld_flowInvariant Hrun) as (_ & H & _).
  exact H.
Qed.

Lemma selection_along_runs_witness :
  length (selectedIndices (state Samples.selectionWorld)) ≤ 2
  ∧ NoDup (selectedIndices (state Samples.selectionWorld))
  ∧ ∀ i, i ∈ selectedIndices (state Samples.selectionWorld) →
         ∃ r, analysisResult (state Samples.selectionWorld) = Some r
              ∧ i < length (suggestions r).
Proof.
  apply (selection_along_runs Js.lowerCaseAscii Samples.pickTwo Samples.selectionWorld).
  vm_compute. reflexivity.
Defined.

(** A click on Generate with a selection of valid, distinct indices
    starts one [Promise.all] over as many calls as indices selected. *)
Lemma generateSelected_starts (w : World) (r : AnalysisResult) :
  let sel := selectedIndices (state w) in
  let picked := selectedSuggestions r sel in
  analysisResult (state w) = Some r →
  1 ≤ length sel → NoDup sel → (∀ i, i ∈ sel → i < length (suggestions r)) →
  length picked = length sel
  ∧ generateSelected w
    = (w |> onState (setAppState GENERATING)
         |> setBatches (batches w ++
              [mkBatch picked (capturedImages (state w) !! 0)
                 (replicate (length picked) None) false])).
Proof.
  intros sel picked Hres Hn Hnd Hrange.
  pose proof (selectedSuggestions_length r sel Hnd Hrange) as Hlen.
  fold picked in Hlen. split; [done|].
  unfold generateSelected. rewrite Hres.
  fold sel. destruct (decide (length sel = 0)) as [?|_]; [lia|].
  fold picked. destruct picked as [|sg rest] eqn:Hp; [simpl in Hlen; lia|].
  reflexivity.
Qed.

(** X7. Along every run of the flow, every generation made one or two
    render calls: never none, never more than two. Every [Promise.all]
    made so far was over one or two [generateHairstyleImage] calls;
    and whenever Generate is offered, the click starts exactly one more,
    over as many calls as styles are selected, which is one or two, and
    shows Generating. *)
Theorem render_calls_per_generation
    (toLowerCase : string → string) (es : list Event) (w : World) :
  run toLowerCase es initialWorld = Some w →
  Forall (λ b, 1 ≤ length (renderCalls b) ≤ 2) (batches w)
  ∧ (offered ClickGenerate w = true →
     ∃ b, batches (handle toLowerCase ClickGenerate w) = batches w ++ [b]
          ∧ length (renderCalls b) = length (selectedIndices (state w))
          ∧ 1 ≤ length (renderCalls b) ≤ 2
          ∧ batchSettled b = false
          ∧ appState (state (handle toLowerCase ClickGenerate w)) = GENERATING).
Proof.
  intros Hrun.
  destruct (run_flowInvariant toLowerCase es _ _ initialWorld_flowInvariant Hrun)
    as (_ & (Hlen & Hnd & Hrange) & H & _).
  split.
  { eapply Forall_impl; [exact H|]. intros b [Hb _]. unfold renderCalls.
    by rewrite length_fmap. }
  intros Hoff. unfold offered in Hoff.
  apply andb_prop in Hoff as [[_ Hres%bool_decide_eq_true]%andb_prop Hcan].
  apply andb_prop in Hcan as [Hpos%bool_decide_eq_true _].
  destruct Hres as [r Hr].
  assert (∀ i, i ∈ selectedIndices (state w) → i < length (suggestions r)) as Hin.
  { intros i Hi. destruct (Hrange i Hi) as (r' & Hr' & Hlt). congruence. }
  destruct (generateSelected_starts w r Hr ltac:(lia) Hnd Hin) as [Hpicked Hw].
  eexists. unfold handle. rewrite Hw.
  split; [reflexivity|].
  split; [unfold renderCalls; simpl; by rewrite length_fmap|].
  split; [unfold renderCalls; simpl; rewrite length_fmap; lia|].
  split; reflexivity.
Qed.

Lemma render_calls_per_generation_witness :
  Forall (λ b, 1 ≤ length (renderCalls b) ≤ 2) (batches Samples.selectionWorld)
  ∧ ∃ b, batches (handle Js.lowerCaseAscii ClickGenerate Samples.selectionWorld)
         = batches Samples.selectionWorld ++ [b]
         ∧ length (renderCalls b) = length (selectedIndices (state Samples.selectionWorld))
         ∧ 1 ≤ length (renderCalls b) ≤ 2
         ∧ batchSettled b = false
         ∧ appState (state (handle Js.lowerCaseAscii ClickGenerate Samples.selectionWorld))
           = GENERATING.
Proof.
  destruct (render_calls_per_generation Js.lowerCaseAscii Samples.pickTwo
              Samples.selectionWorld ltac:(vm_compute; reflexivity)) as [Hall Hclick].
  split; [exact Hall|]. apply Hclick. vm_compute. reflexivity.
Defined.

(** X8. Along every run of the flow, whenever the Idle, camera or
    preview screen shows, no analysis result, no selection and no
    generated image is stored: nothing of an earlier attempt is left
    when a new one starts. *)
Theorem early_screens_hold_nothing
    (toLowerCase : string → string) (es : list Event) (w : World) :
  run toLowerCase es initialWorld = Some w →
  appState (state w) = IDLE ∨ appState (state w) = CAMERA ∨ appState (state w) = PREVIEW →
  analysisResult (state w) = None
  ∧ selectedIndices (state w) = []
  ∧ generatedImages (state w) = [].
Proof.
  intros Hrun.
  destruct (run_flowInvariant toLowerCase es _ _ initialWorld_flowInvariant Hrun) as (H & _).
  exact H.
Qed.

Lemma early_screens_hold_nothing_witness :
  analysisResult (state Samples.previewWorld) = None
  ∧ selectedIndices (state Samples.previewWorld) = []
  ∧ generatedImages (state Samples.previewWorld) = [].
Proof.
  apply (early_screens_hold_nothing Js.lowerCaseAscii Samples.toPreview Samples.previewWorld).
  - vm_compute. reflexivity.
  - right. right. vm_compute. reflexivity.
Defined.

(** X9. Along every run of the flow the buffer never holds more than 3
    images, and on the camera screen [captureStep] is the number of
    images taken so far, below 3, so that [instructions[captureStep]]
    of [renderCamera] is always defined. *)
Theorem camera_step_counts_photos
    (toLowerCase : string → string) (es : list Event) (w : World) :
  run toLowerCase es initialWorld = Some w →
  length (capturedImages (state w)) ≤ 3
  ∧ (appState (state w) = CAMERA →
     captureStep (state w) = length (capturedImages (state w))
     ∧ is_Some (Render.currentInstruction (state w))).
Proof.
  intros Hrun.
  destruct (run_flowInvariant toLowerCase es _ _ initialWorld_flowInvariant Hrun)
    as (_ & _ & _ & (Hle & Hcam) & _).
  split; [done|]. intros Hst. destruct (Hcam Hst) as (Hstep & Hlt).
  split; [done|]. unfold Render.currentInstruction.
  apply lookup_lt_is_Some. simpl. lia.
Qed.

Lemma camera_step_counts_photos_witness :
  length (capturedImages (state Samples.oneShotWorld)) ≤ 3
  ∧ (appState (state Samples.oneShotWorld) = CAMERA →
     captureStep (state Samples.oneShotWorld)
     = length (capturedImages (state Samples.oneShotWorld))
     ∧ is_Some (Render.currentInstruction (state Samples.oneShotWorld))).
Proof.
  apply (camera_step_counts_photos Js.lowerCaseAscii Samples.oneShot Samples.oneShotWorld).
  vm_compute. reflexivity.
Defined.

(** X10. Along every run of the flow, the Error screen always has a
    non-empty message to show. *)
Theorem error_screen_has_message (toLowerCase : string → string) (es : list Event) (w : World) :
  run toLowerCase es initialWorld = Some w →
  appState (state w) = ERROR →
  ∃ m, shownError (state w) = Some m ∧ m ≠ EmptyString.
Proof.
  intros Hrun Hst.
  destruct (run_flowInvariant toLowerCase es _ _ initialWorld_flowInvariant Hrun)
    as (_ & _ & _ & _ & H).
  destruct (H Hst) as (m & Hm & Hne). exists m. split; [|done].
  unfold shownError. by rewrite decide_True.
Qed.

Lemma error_screen_has_message_witness :
  ∃ m, shownError (state Samples.deniedWorld) = Some m ∧ m ≠ EmptyString.
Proof.
  apply (error_screen_has_message Js.lowerCaseAscii Samples.cameraDenied Samples.deniedWorld).
  - vm_compute. reflexivity.
  - vm_compute. reflexivity.
Defined.






(** X12. Whenever a run of the flow has reached the preview, clicking
    Analyze makes one [analyzeFace] call with the buffer and shows
    Analyzing. If that call then fails, the Error screen shows its
    message (or "Failed to analyze face." when it has none), with no
    analysis result, no selection and no generated image stored and the
    buffer kept. If it succeeds, the Selection screen has the result
    and an empty selection: Generate is not offered yet, and every
    suggestion card is. *)
Theorem analysis_outcome_from_preview (toLowerCase : string → string)
    (es : list Event) (w : World) (analysis : AnalysisResult) (err : JsError) :
  run toLowerCase es initialWorld = Some w →
  appState (state w) = PREVIEW →
  let w1 := performAnalysis w in
  let failed := performAnalysis_settled (Throw err) w1 in
  let done := performAnalysis_settled (Ok analysis) w1 in
  (appState (state w1) = ANALYZING
   ∧ analyzeFaceCalls w1 = analyzeFaceCalls w ++ [capturedImages (state w)])
  ∧ (appState (state failed) = ERROR
     ∧ shownError (state failed) = Some (orElse (message err) "Failed to analyze face.")
     ∧ analysisResult (state failed) = None
     ∧ selectedIndices (state failed) = []
     ∧ generatedImages (state failed) = []
     ∧ capturedImages (state failed) = capturedImages (state w))
  ∧ (appState (state done) = SELECTION
     ∧ analysisResult (state done) = Some analysis
     ∧ selectedIndices (state done) = []
     ∧ offered ClickGenerate done = false
     ∧ ∀ i, i < length (suggestions analysis) → offered (ClickStyle i) done = true).
Proof.
  intros Hrun Hst w1 failed done.
  assert (bufferInvariant w) as (Hprev & _ & _).
  { eapply run_bufferInvariant; [|exact Hrun].
    unfold bufferInvariant. simpl. split_and!; [done|lia|constructor]. }
  specialize (Hprev Hst).
  destruct (run_flowInvariant toLowerCase es _ _ initialWorld_flowInvariant Hrun) as (Hclean & _).
  destruct Hclean as (Hres & Hsel & Hgen); [right; by right|].
  assert (w1 = setAnalyses (analyzeFaceCalls w ++ [capturedImages (state w)])
                 (S (analysesInFlight w)) (onState (setAppState ANALYZING) w)) as Hw1.
  { unfold w1, performAnalysis. destruct (decide _) as [Hz|_]; [lia|done]. }
  unfold failed, done. rewrite Hw1. simpl. split_and!; try done.
  - intros i Hi. rewrite bool_decide_eq_true_2 by done. done.
Qed.

Lemma analysis_outcome_from_preview_witness :
  appState (state (performAnalysis_settled (Throw (SyntaxError "Unexpected token in JSON"))
                     (performAnalysis Samples.previewWorld))) = ERROR
  ∧ offered ClickGenerate
      (performAnalysis_settled (Ok Samples.ovalResult)
         (performAnalysis Samples.previewWorld)) = false.
Proof.
  destruct (analysis_outcome_from_preview Js.lowerCaseAscii Samples.toPreview Samples.previewWorld
              Samples.ovalResult (SyntaxError "Unexpected token in JSON"))
    as (_ & (Hfail & _) & (_ & _ & _ & Hgen & _)).
  - vm_compute. reflexivity.
  - vm_compute. reflexivity.
  - split; [exact Hfail|exact Hgen].
Defined.

Lemma three_captures_state (w : World) (front left right : string) :
  appState (state w) = CAMERA →
  capturedImages (state w) = [] →
  let w' := capturePhoto (Some right)
              (capturePhoto (Some left) (capturePhoto (Some front) w)) in
  state w' = mkState PREVIEW [front; left; right] (captureStep (state w) + 1 + 1)
               (analysisResult (state w)) (selectedIndices (state w))
               (generatedImages (state w)) (errorMsg (state w))
  ∧ streamRef w' = None
  ∧ cameraRequests w' = cameraRequests w.
Proof.
  destruct w as [[st imgs stp res sel gen err] ref live dl cam calls infl bs].
  simpl. intros -> ->.
  unfold capturePhoto, cameraMounted. simpl.
  destruct ref; by split_and!.
Qed.

(** X13. From every state, [retakePhoto] followed by three successful
    captures ends on the preview with exactly the three new frames, in
    order, whatever the buffer held before; the analysis result and the
    generated images are dropped, the selection and the stored error
    message are left as they were, one more camera request has been
    made and no stream is referenced. *)
Theorem retake_then_three_captures (w : World) (front left right : string) :
  let w' := capturePhoto (Some right)
              (capturePhoto (Some left)
                 (capturePhoto (Some front) (retakePhoto w))) in
  capturedImages (state w') = [front; left; right]
  ∧ appState (state w') = PREVIEW
  ∧ analysisResult (state w') = None
  ∧ generatedImages (state w') = []
  ∧ selectedIndices (state w') = selectedIndices (state w)
  ∧ errorMsg (state w') = errorMsg (state w)
  ∧ streamRef w' = None
  ∧ cameraRequests w' = S (cameraRequests w).
Proof.
  destruct (three_captures_state (retakePhoto w) front left right eq_refl eq_refl)
    as (Hs & Hr & Hc).
  cbv zeta. rewrite Hs, Hr, Hc. by split_and!.
Qed.

(** X14. [resetApp] and [stopCamera] are idempotent, and a reset after
    the camera was stopped is the same as a reset: a second click on a
    reset button changes nothing. *)
Theorem resetApp_idempotent (w : World) :
  resetApp (resetApp w) = resetApp w
  ∧ stopCamera (stopCamera w) = stopCamera w
  ∧ resetApp (stopCamera w) = resetApp w.
Proof.
  destruct w as [[st imgs stp res sel gen err] ref live dl cam calls infl bs].
  unfold resetApp, stopCamera. simpl. destruct ref; simpl; by split_and!.
Qed.

End FlowFacts.

(** ** Generation: the message shown, the cards of the results *)

Section ResultsFacts.
Import Js App.

Lemma generateSelected_setup (w : World) (r : AnalysisResult) :
  let sel := selectedIndices (state w) in
  let picked := selectedSuggestions r sel in
  let b0 := mkBatch picked (capturedImages (state w) !! 0)
              (replicate (length picked) None) false in
  analysisResult (state w) = Some r →
  1 ≤ length sel → NoDup sel → (∀ i, i ∈ sel → i < length (suggestions r)) →
  batches (generateSelected w) !! length (batches w) = Some b0
  ∧ state (generateSelected w) = setAppState GENERATING (state w)
  ∧ namedAfter b0
  ∧ pending (fulfilled b0) = length sel
  ∧ length picked = length sel.
Proof.
  intros sel picked b0 Hres Hn Hnd Hrange.
  pose proof (selectedSuggestions_length r sel Hnd Hrange) as Hlen.
  fold picked in Hlen.
  assert (generateSelected w
          = setBatches (batches w ++ [b0]) (onState (setAppState GENERATING) w)) as Hw1.
  { unfold generateSelected. rewrite Hres.
    fold sel. destruct (decide (length sel = 0)) as [?|_]; [lia|].
    unfold b0. fold picked. destruct picked as [|sg rest] eqn:Hp; [simpl in Hlen; lia|].
    reflexivity. }
  rewrite Hw1. split_and!.
  - simpl. by apply list_lookup_middle.
  - done.
  - unfold namedAfter, b0. simpl. clear. induction picked; simpl; by constructor.
  - unfold b0. simpl. by rewrite pending_replicate.
  - done.
Qed.

Lemma settle_first_failure (pre post : list (nat * Outcome string)) (i : nat)
    (err : JsError) (b : Batch) (s : State) :
  batchSettled b = false → namedAfter b →
  NoDup (pre ++ (i, Throw err) :: post).*1 →
  (∀ j, j ∈ (pre ++ (i, Throw err) :: post).*1 → fulfilled b !! j = Some None) →
  Forall (λ e, isOk e.2 = true) pre →
  (settleAllIn (pre ++ (i, Throw err) :: post) (b, s)).2
  = generateSelected_resume (Throw err) s.
Proof.
  revert b. induction pre as [|[j o] pre IH]; intros b Hb Hnamed Hnd Hslots Hok.
  - simpl in *.
    assert (fulfilled b !! i = Some None) as Hslot by (apply Hslots; left).
    destruct (namedAfter_lookup b i Hnamed) as [sg Hsg]; [by eexists|].
    unfold settleAllIn. simpl.
    assert (settleIn (i, Throw err) (b, s)
            = (mkBatch (batchSuggestions b) (batchFront b) (fulfilled b) true,
               generateSelected_resume (Throw err) s)) as ->.
    { unfold settleIn, settleRender. simpl. by rewrite Hb, Hsg, Hslot. }
    fold (settleAllIn post (mkBatch (batchSuggestions b) (batchFront b) (fulfilled b) true,
                            generateSelected_resume (Throw err) s)).
    by rewrite settleAllIn_settled.
  - apply Forall_cons in Hok as [Ho Hok]. destruct o as [url|e']; [|done].
    simpl in Hnd, Hslots. apply NoDup_cons in Hnd as [Hj Hnd].
    assert (fulfilled b !! j = Some None) as Hslot by (apply Hslots; left).
    destruct (namedAfter_lookup b j Hnamed) as [sg Hsg]; [by eexists|].
    unfold settleAllIn. simpl. rewrite (settleIn_ok j url b s sg Hb Hsg Hslot).
    set (values := <[j := _]> (fulfilled b)) in *.
    assert (∀ l, l ∈ (pre ++ (i, Throw err) :: post).*1 → values !! l = Some None) as Hslots'.
    { intros l Hl. unfold values. rewrite list_lookup_insert_ne by (intros ->; done).
      apply Hslots. by right. }
    assert (collect values = None) as ->.
    { apply collect_pending, (pending_lookup _ i), Hslots'.
      rewrite fmap_app. apply elem_of_app. right. left. }
    pose proof (namedAfter_insert b j sg url false Hnamed Hsg) as Hnamed'.
    fold values in Hnamed'.
    apply (IH (mkBatch (batchSuggestions b) (batchFront b) values false)
             eq_refl Hnamed' Hnd Hslots' Hok).
Qed.

(** X15. When the render calls of a generation settle and one of them
    fails after only successes, the flow ends in Error showing the
    message of that first failure (or "Failed to generate images." when
    it has none), whatever settles afterwards. *)
Theorem generation_shows_first_failure
    (w : World) (r : AnalysisResult) (pre post : list (nat * Outcome string))
    (i : nat) (err : JsError) :
  let sel := selectedIndices (state w) in
  let es := pre ++ (i, Throw err) :: post in
  let w2 := settleRenders (length (batches w)) es (generateSelected w) in
  analysisResult (state w) = Some r →
  1 ≤ length sel → NoDup sel → (∀ j, j ∈ sel → j < length (suggestions r)) →
  NoDup es.*1 → (∀ j, j ∈ es.*1 → j < length sel) →
  Forall (λ e, isOk e.2 = true) pre →
  appState (state w2) = ERROR
  ∧ errorMsg (state w2) = Some (orElse (message err) "Failed to generate images.")
  ∧ shownError (state w2) = Some (orElse (message err) "Failed to generate images.").
Proof.
  intros sel es w2 Hres Hn Hnd Hrange Hes Hin Hok.
  destruct (generateSelected_setup w r Hres Hn Hnd Hrange)
    as (Hb0 & Hs1 & Hnamed & Hpend & Hlen).
  destruct (settleRenders_batch _ es _ _ Hb0) as (Hs2 & _).
  fold w2 in Hs2. rewrite Hs1 in Hs2.
  rewrite Hs2. unfold es.
  rewrite settle_first_failure; try done.
  intros j Hj. simpl. apply lookup_replicate. split; [done|].
  rewrite Hlen. by apply Hin.
Qed.

Lemma generation_shows_first_failure_witness :
  appState (state (settleRenders 0 Samples.oneFails
                     (generateSelected Samples.selectionWorld))) = ERROR
  ∧ errorMsg (state (settleRenders 0 Samples.oneFails
                       (generateSelected Samples.selectionWorld)))
    = Some "No image generated in response."%string.
Proof.
  assert (NoDup [2; 0]) as Hnd by (apply (bool_decide_unpack _); vm_compute; reflexivity).
  assert (∀ i, i ∈ [2; 0] → i < 5) as Hrange.
  { apply Forall_forall. repeat constructor. }
  assert (NoDup [1; 0]) as Hes by (apply (bool_decide_unpack _); vm_compute; reflexivity).
  assert (∀ i, i ∈ [1; 0] → i < 2) as Hin.
  { apply Forall_forall. repeat constructor. }
  destruct (generation_shows_first_failure Samples.selectionWorld Samples.ovalResult
              [(1, Ok "data:image/png;base64,SHAG"%string)] [] 0
              (Error "No image generated in response.")
              eq_refl (le_S _ _ (le_n 1)) Hnd Hrange Hes Hin
              ltac:(repeat constructor)) as (Hst & Hmsg & _).
  split; [exact Hst|exact Hmsg].
Defined.

Lemma filterByIndex_subset {A} (p : nat → bool) (from : nat) (l : list A) (x : A) :
  x ∈ filterByIndex p from l → x ∈ l.
Proof.
  revert from. induction l as [|y l IH]; intros from; simpl; [done|].
  destruct (p from).
  - intros [->|Hx]%elem_of_cons; [by left|right; by eapply IH].
  - intros Hx. right. by eapply IH.
Qed.

Lemma fmap_NoDup_inj {A B} (f : A → B) (l : list A) (x y : A) :
  NoDup (f <$> l) → x ∈ l → y ∈ l → f x = f y → x = y.
Proof.
  induction l as [|z l IH]; simpl; [by intros _ ?%elem_of_nil|].
  intros [Hz Hnd]%NoDup_cons [->|Hx]%elem_of_cons [->|Hy]%elem_of_cons Heq.
  - done.
  - exfalso. apply Hz. rewrite Heq. by apply list_elem_of_fmap_2.
  - exfalso. apply Hz. rewrite <- Heq. by apply list_elem_of_fmap_2.
  - by apply IH.
Qed.

(** X16. After a generation whose calls all succeeded, the analysis
    result is still the one the selection was made on, and the lookup
    of [renderResults] finds, for every generated image, a suggestion of
    that result with the image's name; when the names of the
    suggestions are distinct it is one of the selected suggestions. *)
Theorem results_cards_resolve
    (w : World) (r : AnalysisResult) (es : list (nat * Outcome string)) :
  let sel := selectedIndices (state w) in
  let w2 := settleRenders (length (batches w)) es (generateSelected w) in
  analysisResult (state w) = Some r →
  1 ≤ length sel → NoDup sel → (∀ i, i ∈ sel → i < length (suggestions r)) →
  NoDup es.*1 → (∀ i, i ∈ es.*1 → i < length sel) →
  Forall (λ e, isOk e.2 = true) es → length es = length sel →
  analysisResult (state w2) = Some r
  ∧ ∀ g, g ∈ generatedImages (state w2) →
         ∃ sg, Render.findSuggestion r g = Some sg
               ∧ name sg = hairstyleName g
               ∧ sg ∈ suggestions r
               ∧ (NoDup (name <$> suggestions r) → sg ∈ selectedSuggestions r sel).
Proof.
  intros sel w2 Hres Hn Hnd Hrange Hes Hin Hok Hall.
  destruct (generateSelected_setup w r Hres Hn Hnd Hrange)
    as (Hb0 & Hs1 & Hnamed & Hpend & Hlen).
  destruct (settleRenders_batch _ es _ _ Hb0) as (Hs2 & _).
  fold w2 in Hs2. rewrite Hs1 in Hs2.
  match type of Hb0 with _ = Some ?b => set (b0 := b) in * end.
  assert (∀ i, i ∈ es.*1 → fulfilled b0 !! i = Some None) as Hslots.
  { intros i Hi. simpl. apply lookup_replicate. split; [done|].
    rewrite Hlen. by apply Hin. }
  destruct (settle_all_ok es b0 (setAppState GENERATING (state w)) eq_refl Hnamed
              Hes Hslots Hok) as (_ & _ & Heq); [unfold sel in *; rewrite Hpend; lia|].
  destruct Heq as (images & Himg & Hnames); [unfold sel in *; by rewrite Hpend|].
  change (batchSuggestions b0) with (selectedSuggestions r sel) in Hnames.
  rewrite Hs2, Himg. simpl. split; [done|].
  intros g Hg.
  assert (hairstyleName g ∈ name <$> selectedSuggestions r sel) as Hname.
  { rewrite <- Hnames. by apply list_elem_of_fmap_2. }
  apply list_elem_of_fmap in Hname as (sg0 & Hsg0 & Hpicked).
  pose proof (filterByIndex_subset _ _ _ _ Hpicked) as Hin0.
  unfold Render.findSuggestion.
  destruct (find _ (suggestions r)) as [sg|] eqn:Hfind.
  - apply find_some in Hfind as [Hsg%list_elem_of_In Hf%bool_decide_eq_true].
    exists sg. split_and!; try done.
    intros Hnames'. rewrite (fmap_NoDup_inj name (suggestions r) sg sg0); try done.
    congruence.
  - exfalso. apply list_elem_of_In in Hin0.
    pose proof (find_none _ _ Hfind sg0 Hin0) as Hf. simpl in Hf.
    apply bool_decide_eq_false in Hf. by apply Hf.
Qed.

Lemma results_cards_resolve_witness :
  analysisResult (state (settleRenders 0 Samples.bothSucceed
                           (generateSelected Samples.selectionWorld)))
  = Some Samples.ovalResult
  ∧ ∀ g, g ∈ generatedImages (state (settleRenders 0 Samples.bothSucceed
                                       (generateSelected Samples.selectionWorld))) →
         ∃ sg, Render.findSuggestion Samples.ovalResult g = Some sg
               ∧ name sg = hairstyleName g
               ∧ sg ∈ suggestions Samples.ovalResult
               ∧ (NoDup (name <$> suggestions Samples.ovalResult) →
                  sg ∈ selectedSuggestions Samples.ovalResult [2; 0]).
Proof.
  assert (NoDup [2; 0]) as Hnd by (apply (bool_decide_unpack _); vm_compute; reflexivity).
  assert (∀ i, i ∈ [2; 0] → i < 5) as Hrange.
  { apply Forall_forall. repeat constructor. }
  assert (NoDup [1; 0]) as Hes by (apply (bool_decide_unpack _); vm_compute; reflexivity).
  assert (∀ i, i ∈ [1; 0] → i < 2) as Hin.
  { apply Forall_forall. repeat constructor. }
  apply (results_cards_resolve Samples.selectionWorld Samples.ovalResult Samples.bothSucceed
           eq_refl (le_S _ _ (le_n 1)) Hnd Hrange Hes Hin
           ltac:(repeat constructor) eq_refl).
Defined.

End ResultsFacts.
